(** * Box Least Squares transit search (bls_search.py): model and properties

    The development embeds [src/python/bls_search.py] function by function.

    Numbers.  Python and numpy floating-point values are modelled as
    extended rationals: a finite value is an exact rational, and the three
    special values NaN, +inf and -inf follow the IEEE rules the program
    relies on (NaN is absorbing and compares false with everything, a
    division by zero gives an infinity or NaN in numpy arithmetic).
    Rounding, overflow to infinity, the 32-bit storage of some arrays and the
    sign of zero are not modelled.  Python integers are [Z].

    The root computed by [math.sqrt] on a finite non-negative argument is
    not rational in general: it is a parameter [sqrtQ] of the development.
    No property below depends on its values. *)

From Stdlib Require Import ZArith QArith Qround Qabs List Bool Lia Lqa.
From Stdlib Require Import Sorted Permutation.
Import ListNotations.

Open Scope Z_scope.

(** ** Exceptions and the result monad *)

(** The exception classes the program can raise.  [Exception] is the plain
    base-class instance raised by [check_period]; the others are raised by
    the Python and numpy primitives. *)
Inductive exn : Type :=
| Exception
| IndexError
| ValueError
| ZeroDivisionError
| OverflowError.

Inductive result (A : Type) : Type :=
| Ok (a : A)
| Raise (e : exn).

Arguments Ok {A} a.
Arguments Raise {A} e.

Definition bind {A B : Type} (m : result A) (k : A -> result B) : result B :=
  match m with
  | Ok a => k a
  | Raise e => Raise e
  end.

Notation "x <- m ;; k" := (bind m (fun x => k))
  (at level 61, m at next level, right associativity).
Notation "' p <- m ;; k" := (bind m (fun p => k))
  (at level 61, p pattern, m at next level, right associativity).

(** A loop with a body that may raise: [for x in l: acc = body(acc, x)]. *)
Fixpoint foldM {A S : Type} (body : S -> A -> result S) (l : list A) (st : S)
  : result S :=
  match l with
  | [] => Ok st
  | x :: l' => st' <- body st x ;; foldM body l' st'
  end.

(** ** Floating-point values *)

Inductive num : Type :=
| NaN
| PInf
| NInf
| Fin (q : Q).

Definition of_Z (z : Z) : num := Fin (inject_Z z).

Definition fzero : num := Fin 0.
Definition fone : num := Fin 1.

Definition isfinite (x : num) : bool :=
  match x with
  | Fin _ => true
  | _ => false
  end.

Definition isnan (x : num) : bool :=
  match x with
  | NaN => true
  | _ => false
  end.

Definition fneg (x : num) : num :=
  match x with
  | NaN => NaN
  | PInf => NInf
  | NInf => PInf
  | Fin a => Fin (- a)
  end.

Definition fadd (x y : num) : num :=
  match x, y with
  | NaN, _ | _, NaN => NaN
  | PInf, NInf | NInf, PInf => NaN
  | PInf, _ | _, PInf => PInf
  | NInf, _ | _, NInf => NInf
  | Fin a, Fin b => Fin (a + b)
  end.

Definition fsub (x y : num) : num := fadd x (fneg y).

(** An infinity times, or divided by, a finite value [a]: the sign follows
    the sign of [a]; a zero gives NaN in a product. *)
Definition inf_times (inf : num) (a : Q) : num :=
  match a ?= 0 with
  | Eq => NaN
  | Gt => inf
  | Lt => fneg inf
  end%Q.

Definition fmul (x y : num) : num :=
  match x, y with
  | NaN, _ | _, NaN => NaN
  | Fin a, Fin b => Fin (a * b)
  | Fin a, inf => inf_times inf a
  | inf, Fin b => inf_times inf b
  | PInf, PInf | NInf, NInf => PInf
  | PInf, NInf | NInf, PInf => NInf
  end.

(** numpy division: a division by zero does not raise, it gives NaN for
    0/0 and an infinity otherwise. *)
Definition fdiv (x y : num) : num :=
  match x, y with
  | NaN, _ | _, NaN => NaN
  | Fin a, Fin b =>
      if Qeq_bool b 0
      then match a ?= 0 with
           | Eq => NaN
           | Gt => PInf
           | Lt => NInf
           end%Q
      else Fin (a / b)
  | Fin _, _ => Fin 0
  | inf, Fin b => if Qle_bool 0 b then inf else fneg inf
  | _, _ => NaN
  end.

Definition fabs (x : num) : num :=
  match x with
  | NaN => NaN
  | PInf | NInf => PInf
  | Fin a => Fin (Qabs a)
  end.

(** numpy.floor *)
Definition ffloor (x : num) : num :=
  match x with
  | Fin a => Fin (inject_Z (Qfloor a))
  | _ => x
  end.

(** IEEE comparison: [None] when one side is NaN. *)
Definition fcompare (x y : num) : option comparison :=
  match x, y with
  | NaN, _ | _, NaN => None
  | PInf, PInf => Some Eq
  | PInf, _ => Some Gt
  | _, PInf => Some Lt
  | NInf, NInf => Some Eq
  | NInf, _ => Some Lt
  | _, NInf => Some Gt
  | Fin a, Fin b => Some (a ?= b)%Q
  end.

Definition fltb (x y : num) : bool :=
  match fcompare x y with
  | Some Lt => true
  | _ => false
  end.

Definition fgtb (x y : num) : bool :=
  match fcompare x y with
  | Some Gt => true
  | _ => false
  end.

Definition feqb (x y : num) : bool :=
  match fcompare x y with
  | Some Eq => true
  | _ => false
  end.

Definition fleb (x y : num) : bool :=
  match fcompare x y with
  | Some Lt | Some Eq => true
  | _ => false
  end.

(** Equality of values up to the representation of a rational. *)
Definition num_eq (x y : num) : Prop :=
  match x, y with
  | NaN, NaN | PInf, PInf | NInf, NInf => True
  | Fin a, Fin b => (a == b)%Q
  | _, _ => False
  end.

(** Truncation toward zero. *)
Definition Qtrunc (a : Q) : Z :=
  if Qle_bool 0 a then Qfloor a else Qceiling a.

(** Python [int(x)] on a float. *)
Definition py_int (x : num) : result Z :=
  match x with
  | Fin a => Ok (Qtrunc a)
  | NaN => Raise ValueError
  | PInf | NInf => Raise OverflowError
  end.

(** Conversion of an array element to dtype 'int' (a C cast): truncation
    toward zero; a non-finite value gives the smallest 64-bit integer. *)
Definition astype_int (x : num) : Z :=
  match x with
  | Fin a => Qtrunc a
  | _ => - 2 ^ 63
  end.

(** Python division of floats: a zero divisor raises. *)
Definition py_div (x y : num) : result num :=
  if feqb y fzero then Raise ZeroDivisionError else Ok (fdiv x y).

(** ** Python and numpy primitives on sequences *)

(** [l[0]] and [l[-1]] *)
Definition index_first {A : Type} (l : list A) : result A :=
  match l with
  | [] => Raise IndexError
  | x :: _ => Ok x
  end.

Definition index_last {A : Type} (l : list A) : result A :=
  match rev l with
  | [] => Raise IndexError
  | x :: _ => Ok x
  end.

(** [l[-1] = v] *)
Definition set_last {A : Type} (l : list A) (v : A) : result (list A) :=
  match rev l with
  | [] => Raise IndexError
  | _ :: r => Ok (rev r ++ [v])
  end.

(** Bound of a slice: a negative bound counts from the end, and the bound
    is clipped to the sequence. *)
Definition slice_bound (len i : Z) : nat :=
  Z.to_nat (Z.min len (if i <? 0 then Z.max 0 (i + len) else i)).

(** [l[i1:i2]] *)
Definition slice {A : Type} (l : list A) (i1 i2 : Z) : list A :=
  let len := Z.of_nat (length l) in
  let a := slice_bound len i1 in
  let b := slice_bound len i2 in
  firstn (b - a) (skipn a l).

(** [range(start, stop, step)] *)
Definition py_range (start stop step : Z) : result (list Z) :=
  if step =? 0 then Raise ValueError
  else
    let n := if 0 <? step
             then (stop - start + step - 1) / step
             else (start - stop - step - 1) / (- step) in
    Ok (map (fun k => start + Z.of_nat k * step) (seq 0 (Z.to_nat n))).

(** [range(n)] *)
Definition range (n : Z) : list Z := map Z.of_nat (seq 0 (Z.to_nat n)).

(** numpy.sum *)
Definition np_sum (l : list num) : num := fold_left fadd l fzero.

(** numpy.nansum: a NaN counts as zero. *)
Definition np_nansum (l : list num) : num :=
  np_sum (map (fun x => if isnan x then fzero else x) l).

(** numpy.mean: the mean of an empty array is NaN (0/0). *)
Definition np_mean (l : list num) : num :=
  fdiv (np_sum l) (of_Z (Z.of_nat (length l))).

(** numpy.power(x, 2) and numpy.power(x, -2) *)
Definition power2 (x : num) : num := fmul x x.
Definition power_minus2 (x : num) : num := fdiv fone (fmul x x).

(** The larger of two values, NaN if one of them is NaN. *)
Definition fmax (x y : num) : num :=
  match fcompare x y with
  | None => NaN
  | Some Lt => y
  | Some _ => x
  end.

(** numpy.max: raises on an empty array. *)
Definition np_max (l : list num) : result num :=
  match l with
  | [] => Raise ValueError
  | x :: l' => Ok (fold_left fmax l' x)
  end.

(** The order numpy sorts by: NaN after every other value. *)
Definition sort_leb (x y : num) : bool :=
  match x, y with
  | _, NaN => true
  | NaN, _ => false
  | _, _ => fleb x y
  end.

(** Insertion of [x] into a sorted list. *)
Fixpoint insert_by {A : Type} (leb : A -> A -> bool) (x : A) (l : list A)
  : list A :=
  match l with
  | [] => [x]
  | y :: l' => if leb x y then x :: l else y :: insert_by leb x l'
  end.

(** Stable sort by insertion: the elements are taken from the last to the
    first, and each one is put before the first element that it is not
    larger than, so that equal keys keep the order they came in. *)
Definition sort_by {A : Type} (leb : A -> A -> bool) (l : list A) : list A :=
  fold_right (insert_by leb) [] l.

(** Sort of one column of floats. *)
Definition np_sort (l : list num) : list num := sort_by sort_leb l.

(** numpy.nonzero(cond)[0][0]: the first index at which [p] holds. *)
Fixpoint first_index {A : Type} (p : A -> bool) (l : list A) : result nat :=
  match l with
  | [] => Raise IndexError
  | x :: l' => if p x then Ok O else i <- first_index p l' ;; Ok (S i)
  end.

(** numpy.arange(start, stop, step) on floats: ceil((stop - start)/step)
    values start + i*step.  The length is computed with Python floats, so
    a zero step raises; a length that is not finite cannot be computed. *)
Definition np_arange (start stop step : num) : result (list num) :=
  len <- py_div (fsub stop start) step ;;
  match len with
  | Fin n =>
      Ok (map (fun i => fadd start (fmul (of_Z (Z.of_nat i)) step))
              (seq 0 (Z.to_nat (Qceiling n))))
  | _ => Raise ValueError
  end.

(** Element-wise operation of two arrays, written into the first one
    ([a *= b]): the second array must have the length of the first, or
    length one. *)
Definition np_inplace (f : num -> num -> num) (a b : list num)
  : result (list num) :=
  if Nat.eqb (length a) (length b)
  then Ok (map (fun p => f (fst p) (snd p)) (combine a b))
  else match b with
       | [y] => Ok (map (fun x => f x y) a)
       | _ => Raise ValueError
       end.

(** Element-wise operation of two arrays into a new one ([a * b]): arrays
    of equal length, or one of them of length one. *)
Definition np_binop (f : num -> num -> num) (a b : list num)
  : result (list num) :=
  if Nat.eqb (length a) (length b)
  then Ok (map (fun p => f (fst p) (snd p)) (combine a b))
  else match a, b with
       | [x], _ => Ok (map (f x) b)
       | _, [y] => Ok (map (fun x => f x y) a)
       | _, _ => Raise ValueError
       end.

(** A list built element by element by a function that may raise. *)
Fixpoint mapM {A B : Type} (f : A -> result B) (l : list A) : result (list B) :=
  match l with
  | [] => Ok []
  | x :: l' => y <- f x ;; ys <- mapM f l' ;; Ok (y :: ys)
  end.

(** ** The rows of the input and of the folded series *)

(** One input record: time, flux and flux error. *)
Definition sample : Type := (num * num * num)%type.

Definition time_of (r : sample) : num := fst (fst r).
Definition flux_of (r : sample) : num := snd (fst r).
Definition err_of (r : sample) : num := snd r.

(** One row of [ptuple] after [numpy.rot90(ptuple, 3)]: the rotation turns
    the three rows phase, work2, inerr into the columns inerr, work2,
    phase.  The phase column holds integers. *)
Record prow : Type := mk_prow { col0 : num; col1 : num; col2 : Z }.

Fixpoint rot90_3 (phase : list Z) (work2 inerr : list num) : list prow :=
  match phase, work2, inerr with
  | p :: phase', w :: work2', e :: inerr' =>
      mk_prow e w p :: rot90_3 phase' work2' inerr'
  | _, _, _ => []
  end.

(** The current best fit of every trial period seen so far: the arrays
    srMax, transitDuration and transitPhase. *)
Definition fits : Type := (list num * list num * list num)%type.

(** What [bls_search] returns. *)
Record bls_result : Type := mk_result {
  bestSr : num;
  srmax : list num;
  bestTrial : nat;
  trialPeriods : list num;
  transitDuration : list num;
  BJD0 : list num
}.

(** The prepared time series of [bls_search]. *)
Record series : Type := mk_series {
  intime : list num;
  work1 : list num;
  work2 : list num;
  inerr : list num
}.

(** ** The program *)

Section BLS.

(** The root of a finite non-negative value. *)
Variable sqrtQ : Q -> Q.

(** The square root as a total function (NaN below zero). *)
Definition fsqrt (x : num) : num :=
  match x with
  | NaN | NInf => NaN
  | PInf => PInf
  | Fin a => if Qle_bool 0 a then Fin (sqrtQ a) else NaN
  end.

(** [math.sqrt]: raises on a negative argument. *)
Definition math_sqrt (x : num) : result num :=
  if fltb x fzero then Raise ValueError else Ok (fsqrt x).

Definition check_period (intime : list num) (maxper : num) : result unit :=
  last_time <- index_last intime ;;
  first_time <- index_first intime ;;
  let tr := fsub last_time first_time in
  if fgtb maxper tr then Raise Exception else Ok tt.

Definition compute_weights (work4 work5 : list num)
  : result (list num * list num) :=
  let sigmaSum := np_nansum (map power_minus2 work5) in
  let omega := map (fun w => fdiv (power_minus2 w) sigmaSum) work5 in
  s <- np_binop fmul omega work4 ;;
  Ok (s, omega).

Definition compute_maximum_residual_curve
  (srMax trialPeriods transitPhase transitDuration intime : list num)
  (nbins : Z) : result bls_result :=
  bestSr <- np_max srMax ;;
  bestTrial <- first_index (fun x => feqb x bestSr) srMax ;;
  let srMax := map (fun x => fdiv x bestSr) srMax in
  transitDuration <-
    np_inplace fmul transitDuration
               (map (fun p => fdiv p (Fin 24)) trialPeriods) ;;
  phase <- np_binop fmul transitPhase trialPeriods ;;
  first_time <- index_first intime ;;
  let BJD0 :=
    map (fun x => fadd (fadd (fdiv x (of_Z nbins)) first_time) (Fin 2454833))
        phase in
  Ok (mk_result bestSr srMax bestTrial trialPeriods transitDuration BJD0).

(** Lines 54 to 58 of [sub_iterate]: the signal residue of the window that
    starts at bin [i1] and spans [duration] bins. *)
Definition signal_residue (i1 duration : Z) (s omega : list num) : result num :=
  let i2 := i1 + duration in
  let sr1 := np_sum (map power2 (slice s i1 i2)) in
  let sr2 := np_sum (slice omega i1 i2) in
  math_sqrt (fabs (fdiv sr1 (fmul sr2 (fsub fone sr2)))).

(** [(i1 + i2) / 2] is the integer division of Python 2. *)
Definition sub_iterate (i1 duration : Z) (s omega : list num) (st : fits)
  : result fits :=
  let '(srMax, transitDuration, transitPhase) := st in
  let i2 := i1 + duration in
  sr <- signal_residue i1 duration s omega ;;
  top <- index_last srMax ;;
  if fgtb sr top then
    srMax <- set_last srMax sr ;;
    transitDuration <- set_last transitDuration (of_Z duration) ;;
    transitPhase <- set_last transitPhase (of_Z ((i1 + i2) / 2)) ;;
    Ok (srMax, transitDuration, transitPhase)
  else Ok (srMax, transitDuration, transitPhase).

Definition iterate_trialp_durations (s omega : list num)
  (nbins duration1 duration2 halfHour : Z) (st : fits) : result fits :=
  foldM (fun st i1 =>
           durations <- py_range duration1 (duration2 + 1) halfHour ;;
           foldM (fun st duration => sub_iterate i1 duration s omega st)
                 durations st)
        (range nbins) st.

(** The phase bin of a sample of time [t]. *)
Definition phase_bin (nbins : Z) (trialFrequency t : num) : Z :=
  astype_int
    (fmul (fsub (fmul t trialFrequency) (ffloor (fmul t trialFrequency)))
          (of_Z nbins)).

(** The rows of the sorted folded series that fall in bin [i]. *)
Definition bin_elements (phsort : list prow) (i : Z) : list prow :=
  filter (fun r => col2 r =? i) phsort.

(** Lines 83 to 88 of [compute_folded]: the phase of every sample, the
    rotated array of the rows and its sort by phase. *)
Definition phsort_of (nbins : Z) (work1 work2 inerr : list num)
  (trialFrequency : num) : list prow :=
  let phase := map (phase_bin nbins trialFrequency) work1 in
  let ptuple := rot90_3 phase work2 inerr in
  sort_by (fun a b => col2 a <=? col2 b) ptuple.

(** [numpy.zeros] refuses a negative size, and [phase], [work2] and
    [inerr] are stacked into one array, which takes columns of one length. *)
Definition compute_folded (nbins : Z) (work1 work2 inerr : list num)
  (trialFrequency : num) (duration2 : Z) : result (list num * list num) :=
  if nbins <? 0 then Raise ValueError
  else if negb (Nat.eqb (length work2) (length work1)
                && Nat.eqb (length inerr) (length work1))
  then Raise ValueError
  else
    let phsort := phsort_of nbins work1 work2 inerr trialFrequency in
    bins <- mapM (fun i =>
                    let elements := bin_elements phsort i in
                    let mean := np_mean (map col1 elements) in
                    disp <- math_sqrt
                              (fdiv (np_sum (map power2 (map col0 elements)))
                                    (of_Z (Z.of_nat (length elements)))) ;;
                    Ok (mean, disp))
                 (range nbins) ;;
    let work4 := map fst bins in
    let work5 := map snd bins in
    Ok (work4 ++ slice work4 0 duration2, work5 ++ slice work5 0 duration2).

Definition initialize_iteration (st : fits) (trialPeriod mindur maxdur : num)
  (nbins : Z) : result (fits * num * Z * Z * Z) :=
  let '(srMax, transitDuration, transitPhase) := st in
  let srMax := srMax ++ [fzero] in
  let transitDuration := transitDuration ++ [NaN] in
  let transitPhase := transitPhase ++ [NaN] in
  let trialFrequency := fdiv fone trialPeriod in
  d1 <- py_int (fdiv (fdiv (fmul (of_Z nbins) mindur) (Fin 24)) trialPeriod) ;;
  let duration1 := Z.max d1 2 in
  d2 <- py_int (fdiv (fdiv (fmul (of_Z nbins) maxdur) (Fin 24)) trialPeriod) ;;
  let duration2 := Z.max (d2 + 1) (duration1 + 1) in
  halfHour <- py_int (fadd (fmul (fdiv (Fin (2083333 # 100000000)) trialPeriod)
                                 (of_Z nbins))
                           fone) ;;
  Ok (srMax, transitDuration, transitPhase, trialFrequency,
      duration1, duration2, halfHour).

(** Lines 135 to 140 of [period_iteration]: the folded series, and the
    arrays [s] and [omega] that the scan of the windows receives. *)
Definition folded_s_omega (nbins : Z) (work1 work2 inerr : list num)
  (trialFrequency : num) (duration2 : Z) : result (list num * list num) :=
  '(work4, work5) <-
    compute_folded nbins work1 work2 inerr trialFrequency duration2 ;;
  let '(s, omega) := (work4, work5) in
  Ok (s, omega).

(** The text of the progress message is not modelled, the division that
    computes its percentage is. *)
Definition period_iteration (complete : Z) (trialPeriods : list num)
  (trialPeriod : num) (st : fits) (nbins : Z) (mindur maxdur : num)
  (work1 work2 inerr : list num) : result (fits * Z) :=
  fracComplete <- py_div (of_Z complete)
                         (of_Z (Z.of_nat (length trialPeriods) - 1)) ;;
  let complete := complete + 1 in
  '(st, trialFrequency, duration1, duration2, halfHour) <-
    initialize_iteration st trialPeriod mindur maxdur nbins ;;
  '(s, omega) <-
    folded_s_omega nbins work1 work2 inerr trialFrequency duration2 ;;
  st <- iterate_trialp_durations s omega nbins duration1 duration2 halfHour st ;;
  Ok (st, complete).

(** [flux_array.sort(axis=0)]: every column is sorted on its own. *)
Definition sort_axis0 (flux_array : list sample) : list sample :=
  combine (combine (np_sort (map time_of flux_array))
                   (np_sort (map flux_of flux_array)))
          (np_sort (map err_of flux_array)).

(** Lines 185 to 198 of [bls_search]. *)
Definition prepare_time_series (flux_list : list sample) : result series :=
  match flux_list with
  | [] => Raise IndexError
  | _ =>
      let flux_array := sort_axis0 flux_list in
      let flux_array_finite :=
        filter (fun r => isfinite (flux_of r)) flux_array in
      let intime := map time_of flux_array_finite in
      let indata := map flux_of flux_array_finite in
      let inerr := map err_of flux_array_finite in
      first_time <- index_first intime ;;
      let work1 := map (fun t => fsub t first_time) intime in
      let work2 := map (fun x => fsub x (np_mean indata)) indata in
      Ok (mk_series intime work1 work2 inerr)
  end.

(** Lines 206 and 207 of [bls_search]: the grid of trial periods. *)
Definition trial_period_grid (minper maxper : num) (nsearch : Z)
  : result (list num) :=
  dPeriod <- py_div (fsub maxper minper) (of_Z nsearch) ;;
  np_arange minper (fadd maxper dPeriod) dPeriod.

(** Lines 202 to 213 of [bls_search]: the period grid and the loop over it. *)
Definition period_search (ts : series) (minper maxper mindur maxdur : num)
  (nsearch nbins : Z) : result (list num * fits) :=
  trialPeriods <- trial_period_grid minper maxper nsearch ;;
  '(st, complete) <-
    foldM (fun acc trialPeriod =>
             let '(st, complete) := acc in
             period_iteration complete trialPeriods trialPeriod st nbins
                              mindur maxdur (work1 ts) (work2 ts) (inerr ts))
          trialPeriods (([], [], []), 0) ;;
  Ok (trialPeriods, st).

Definition bls_search (flux_list : list sample)
  (minper maxper mindur maxdur : num) (nsearch nbins : Z) : result bls_result :=
  ts <- prepare_time_series flux_list ;;
  _ <- check_period (intime ts) maxper ;;
  '(trialPeriods, (srMax, transitDuration, transitPhase)) <-
    period_search ts minper maxper mindur maxdur nsearch nbins ;;
  compute_maximum_residual_curve srMax trialPeriods transitPhase
                                 transitDuration (intime ts) nbins.



End BLS.

(** An executable root, to run the program: exact on the square of a
    rational, rounded down to a multiple of the inverse of the denominator
    otherwise. *)
Definition Qsqrt_down (q : Q) : Q :=
  Z.sqrt (Qnum q * Z.pos (Qden q)) # Qden q.

(** * Vocabulary of the properties *)

(** [raises_only P m]: when [m] raises, the exception satisfies [P]. *)
Definition raises_only {A : Type} (P : exn -> Prop) (m : result A) : Prop :=
  forall e, m = Raise e -> P e.

(** The exceptions of the primitives: everything but the plain
    [Exception] of [check_period]. *)
Definition primitive_exn (e : exn) : Prop := e <> Exception.


(** A value that [srMax] can hold: zero or more, possibly infinite, never
    NaN. *)
Definition statistic_value (x : num) : Prop :=
  match x with
  | PInf => True
  | Fin a => (0 <= a)%Q
  | _ => False
  end.

(** What is claimed of the normalized curve of a result. *)
Definition unit_peak_curve (nsearch : Z) (r : bls_result) : Prop :=
  Z.of_nat (length (srmax r)) = nsearch + 1 /\
  (forall x, In x (srmax r) -> exists q, x = Fin q /\ (0 <= q <= 1)%Q) /\
  num_eq (nth (bestTrial r) (srmax r) NaN) fone.

(** What the loop over the trial periods keeps true of its state after [n]
    periods. *)
Definition curve_invariant (n : nat) (st : fits) : Prop :=
  let '(srMax, _, _) := st in
  length srMax = n /\ Forall statistic_value srMax.

(** The rows of a series sorted by their time, every row kept whole. *)
Definition rows_sorted_by_time (flux_list : list sample) : list sample :=
  sort_by (fun a b => sort_leb (time_of a) (time_of b)) flux_list.

(** The prepared series as specified: rows sorted by time, rows without a
    finite flux removed, the mean of the flux and the first time
    subtracted. *)
Definition prepare_as_specified (flux_list : list sample) : result series :=
  let rows := filter (fun r => isfinite (flux_of r))
                     (rows_sorted_by_time flux_list) in
  let intime := map time_of rows in
  let indata := map flux_of rows in
  first_time <- index_first intime ;;
  Ok (mk_series intime
                (map (fun t => fsub t first_time) intime)
                (map (fun x => fsub x (np_mean indata)) indata)
                (map err_of rows)).

(** The weight of every bin as specified: the inverse square of the
    dispersion, divided by the sum of the inverse squares over the array. *)
Definition weights_as_specified (work5 : list num) : list num :=
  let sigmaSum := np_nansum (map power_minus2 work5) in
  map (fun w => fdiv (power_minus2 w) sigmaSum) work5.

(** The sum of a list of rationals. *)
Definition Qsum (qs : list Q) : Q := fold_right Qplus 0%Q qs.

(** The three arrays of the best fits have [n] entries each. *)
Definition fits_length (n : nat) (st : fits) : Prop :=
  let '(srMax, transitDuration, transitPhase) := st in
  length srMax = n /\ length transitDuration = n /\ length transitPhase = n.

(** * Concrete series *)

(** Four samples at times 0 to 3 with one high flux value, sorted in every
    column, with the flux error [e]. *)
Definition dip_flux_list (e : num) : list sample :=
  [(Fin 0, Fin 0, e); (Fin 1, Fin 0, e); (Fin 2, Fin 0, e); (Fin 3, Fin 4, e)].

(** The series that the preparation makes of [dip_flux_list]. *)
Definition dip_series (e : num) : series :=
  {| intime := [Fin 0; Fin 1; Fin 2; Fin 3];
     work1 := [Fin 0; Fin 1; Fin 2; Fin 3];
     work2 := [Fin (-4 # 4); Fin (-4 # 4); Fin (-4 # 4); Fin (12 # 4)];
     inerr := [e; e; e; e] |}.


(** Two samples that are not in the order of their times. *)
Definition unsorted_flux_list : list sample :=
  [(Fin 1, Fin 5, Fin (1 # 2)); (Fin 0, Fin 7, Fin (1 # 4))].

(** The result of the search on [dip_flux_list] with flux error 1/4. *)
Definition dip_result : bls_result :=
  Eval vm_compute in
    match bls_search Qsqrt_down (dip_flux_list (Fin (1 # 4)))
                     (Fin 1) (Fin 2) (Fin 1) (Fin 2) 1 2 with
    | Ok r => r
    | Raise _ => mk_result NaN [] 0 [] [] []
    end.


(** A curve of best statistics whose maximum is reached twice. *)
Definition tie_srMax : list num := [Fin 1; Fin 3; Fin 3; Fin 2].

(** What [compute_maximum_residual_curve] returns on it. *)
Definition tie_result : bls_result :=
  Eval vm_compute in
    match compute_maximum_residual_curve
            tie_srMax [Fin 1; Fin 2; Fin 3; Fin 4]
            [Fin 1; Fin 1; Fin 1; Fin 1] [Fin 2; Fin 2; Fin 2; Fin 2]
            [Fin 0] 2 with
    | Ok r => r
    | Raise _ => mk_result NaN [] 0 [] [] []
    end.

(** * Properties *)

(** ** The result monad *)

Lemma bind_Ok {A B : Type} (m : result A) (k : A -> result B) (b : B) :
  bind m k = Ok b -> exists a, m = Ok a /\ k a = Ok b.
Proof.
  destruct m as [a|e]; simpl; intros H; [exists a; auto | discriminate].
Qed.

Lemma raises_only_Ok {A : Type} (P : exn -> Prop) (a : A) :
  raises_only P (Ok a).
Proof. intros e H; discriminate. Qed.

Lemma raises_only_Raise {A : Type} (P : exn -> Prop) (e : exn) :
  P e -> raises_only P (@Raise A e).
Proof. intros H e' H'; inversion H'; subst; assumption. Qed.

Lemma raises_only_bind {A B : Type} (P : exn -> Prop) (m : result A)
  (k : A -> result B) :
  raises_only P m -> (forall a, raises_only P (k a)) ->
  raises_only P (bind m k).
Proof.
  intros Hm Hk e. destruct m as [a|e']; simpl.
  - apply Hk.
  - intros H; inversion H; subst; apply Hm; reflexivity.
Qed.

Lemma raises_only_foldM {A S : Type} (P : exn -> Prop)
  (body : S -> A -> result S) (l : list A) :
  (forall st x, raises_only P (body st x)) ->
  forall st, raises_only P (foldM body l st).
Proof.
  intros Hb. induction l as [|x l IH]; intros st; simpl.
  - apply raises_only_Ok.
  - apply raises_only_bind; [apply Hb | intros st'; apply IH].
Qed.

Lemma raises_only_mapM {A B : Type} (P : exn -> Prop) (f : A -> result B)
  (l : list A) :
  (forall x, raises_only P (f x)) -> raises_only P (mapM f l).
Proof.
  intros Hf. induction l as [|x l IH]; simpl.
  - apply raises_only_Ok.
  - apply raises_only_bind; [apply Hf | intros y].
    apply raises_only_bind; [apply IH | intros ys; apply raises_only_Ok].
Qed.

Ltac raises_step :=
  match goal with
  | |- raises_only _ (Ok _) => apply raises_only_Ok
  | |- raises_only _ (Raise _) => apply raises_only_Raise; discriminate
  | |- raises_only _ (bind _ _) => apply raises_only_bind; [| intros ?]
  | |- raises_only _ (foldM _ _ _) => apply raises_only_foldM; intros ? ?
  | |- raises_only _ (mapM _ _) => apply raises_only_mapM; intros ?
  | |- raises_only _ (if ?c then _ else _) => destruct c
  | |- raises_only _ (match ?x with _ => _ end) => destruct x
  | |- raises_only _ (let '(_, _) := ?x in _) => destruct x
  end.

Lemma index_first_prim {A : Type} (l : list A) :
  raises_only primitive_exn (index_first l).
Proof. unfold index_first; repeat raises_step. Qed.

Lemma index_last_prim {A : Type} (l : list A) :
  raises_only primitive_exn (index_last l).
Proof. unfold index_last; repeat raises_step. Qed.

Lemma set_last_prim {A : Type} (l : list A) (v : A) :
  raises_only primitive_exn (set_last l v).
Proof. unfold set_last; repeat raises_step. Qed.

Lemma py_int_prim (x : num) : raises_only primitive_exn (py_int x).
Proof. unfold py_int; repeat raises_step. Qed.

Lemma py_div_prim (x y : num) : raises_only primitive_exn (py_div x y).
Proof. unfold py_div; repeat raises_step. Qed.

Lemma py_range_prim (a b c : Z) : raises_only primitive_exn (py_range a b c).
Proof. unfold py_range; repeat raises_step. Qed.

Lemma np_max_prim (l : list num) : raises_only primitive_exn (np_max l).
Proof. unfold np_max; repeat raises_step. Qed.

Lemma first_index_prim {A : Type} (p : A -> bool) (l : list A) :
  raises_only primitive_exn (first_index p l).
Proof.
  induction l as [|x l IH]; simpl; repeat raises_step; assumption.
Qed.

Lemma np_arange_prim (a b c : num) : raises_only primitive_exn (np_arange a b c).
Proof. unfold np_arange; repeat raises_step; apply py_div_prim. Qed.

Lemma np_inplace_prim (f : num -> num -> num) (a b : list num) :
  raises_only primitive_exn (np_inplace f a b).
Proof. unfold np_inplace; repeat raises_step. Qed.

Lemma np_binop_prim (f : num -> num -> num) (a b : list num) :
  raises_only primitive_exn (np_binop f a b).
Proof. unfold np_binop; repeat raises_step. Qed.

Create HintDb prim.

#[local] Hint Resolve index_first_prim index_last_prim set_last_prim
  py_int_prim py_div_prim py_range_prim np_max_prim first_index_prim
  np_arange_prim np_inplace_prim np_binop_prim : prim.

(** ** Comparisons *)



Section Properties.

Variable sqrtQ : Q -> Q.












Lemma prepare_time_series_prim (flux_list : list sample) :
  raises_only primitive_exn (prepare_time_series flux_list).
Proof.
  unfold prepare_time_series. repeat raises_step; auto with prim.
Qed.

(** Without the absolute value the root would raise on a negative
    radicand. *)
Lemma math_sqrt_negative_raises (a : Q) :
  (a < 0)%Q -> math_sqrt sqrtQ (Fin a) = Raise ValueError.
Proof.
  intros Ha. unfold math_sqrt, fltb, fcompare, fzero.
  rewrite (proj1 (Qlt_alt a 0) Ha). reflexivity.
Qed.

(** The arrays that the scan of the windows receives are the folded arrays
    themselves. *)
Lemma folded_s_omega_eq (nbins : Z) (work1 work2 inerr : list num)
  (trialFrequency : num) (duration2 : Z) :
  folded_s_omega sqrtQ nbins work1 work2 inerr trialFrequency duration2 =
  compute_folded sqrtQ nbins work1 work2 inerr trialFrequency duration2.
Proof.
  unfold folded_s_omega.
  destruct (compute_folded sqrtQ nbins work1 work2 inerr trialFrequency
                           duration2) as [[work4 work5]|e]; reflexivity.
Qed.







Lemma fdiv_Fin (a b : Q) : ~ (b == 0)%Q -> fdiv (Fin a) (Fin b) = Fin (a / b).
Proof.
  intros Hb. unfold fdiv.
  destruct (Qeq_bool b 0) eqn:E; [|reflexivity].
  apply Qeq_bool_iff in E. contradiction.
Qed.


Lemma inject_Z_pos (n : Z) : 1 <= n -> (0 < inject_Z n)%Q.
Proof.
  intros Hn. change 0%Q with (inject_Z 0). rewrite <- Zlt_Qlt. lia.
Qed.




(** ** The maximum and its first index *)

Lemma fleb_Fin (a b : Q) : fleb (Fin a) (Fin b) = true <-> (a <= b)%Q.
Proof.
  unfold fleb, fcompare. destruct (a ?= b)%Q eqn:E.
  - apply Qeq_alt in E. split; [intros _; lra | reflexivity].
  - apply Qlt_alt in E. split; [intros _; lra | reflexivity].
  - apply Qgt_alt in E. split; [discriminate | intros H; lra].
Qed.

Lemma feqb_Fin (a b : Q) : feqb (Fin a) (Fin b) = true <-> (a == b)%Q.
Proof.
  unfold feqb, fcompare. destruct (a ?= b)%Q eqn:E.
  - apply Qeq_alt in E. split; [intros _; exact E | reflexivity].
  - apply Qlt_alt in E. split; [discriminate | intros H; lra].
  - apply Qgt_alt in E. split; [discriminate | intros H; lra].
Qed.

Lemma fgtb_Fin (a b : Q) : fgtb (Fin a) (Fin b) = true <-> (b < a)%Q.
Proof.
  unfold fgtb, fcompare. destruct (a ?= b)%Q eqn:E.
  - apply Qeq_alt in E. split; [discriminate | intros H; lra].
  - apply Qlt_alt in E. split; [discriminate | intros H; lra].
  - apply Qgt_alt in E. split; [intros _; exact E | reflexivity].
Qed.

Lemma fleb_trans (x y z : num) :
  fleb x y = true -> fleb y z = true -> fleb x z = true.
Proof.
  destruct x as [| | |a], y as [| | |b], z as [| | |c];
    try reflexivity; try discriminate.
  rewrite !fleb_Fin. intros; lra.
Qed.

Lemma fmax_upper (x y : num) :
  fmax x y <> NaN ->
  fleb x (fmax x y) = true /\ fleb y (fmax x y) = true.
Proof.
  destruct x as [| | |a], y as [| | |b]; simpl;
    try (intros H; exfalso; apply H; reflexivity);
    try (intros _; split; reflexivity).
  - intros _. split; [reflexivity | apply fleb_Fin; lra].
  - intros _. split; [apply fleb_Fin; lra | reflexivity].
  - unfold fmax, fcompare. destruct (a ?= b)%Q eqn:E; intros _.
    + apply Qeq_alt in E. split; apply fleb_Fin; lra.
    + apply Qlt_alt in E. split; apply fleb_Fin; lra.
    + apply Qgt_alt in E. split; apply fleb_Fin; lra.
Qed.

Lemma fold_fmax_NaN (l : list num) : fold_left fmax l NaN = NaN.
Proof. induction l as [|y l IH]; simpl; [reflexivity | exact IH]. Qed.

Lemma fold_fmax_upper (l : list num) :
  forall x, fold_left fmax l x <> NaN ->
  fleb x (fold_left fmax l x) = true /\
  Forall (fun y => fleb y (fold_left fmax l x) = true) l.
Proof.
  induction l as [|y l IH]; intros x Hm; simpl in *.
  - split; [|constructor]. destruct x as [| | |a]; try reflexivity.
    + exfalso; apply Hm; reflexivity.
    + apply fleb_Fin; lra.
  - assert (Hxy : fmax x y <> NaN).
    { intros E. rewrite E, fold_fmax_NaN in Hm. apply Hm; reflexivity. }
    destruct (IH _ Hm) as [H1 H2]. destruct (fmax_upper x y Hxy) as [Hx Hy].
    split; [|constructor; [|exact H2]];
      eapply fleb_trans; eassumption.
Qed.

Lemma np_max_upper (l : list num) (m : num) :
  np_max l = Ok m -> m <> NaN -> Forall (fun y => fleb y m = true) l.
Proof.
  destruct l as [|x l]; simpl; [discriminate|].
  intros H Hm. inversion H; subst m; clear H.
  destruct (fold_fmax_upper l x Hm) as [H1 H2]. constructor; assumption.
Qed.

Lemma first_index_spec {A : Type} (p : A -> bool) (d : A) (l : list A) :
  forall i, first_index p l = Ok i ->
  (i < length l)%nat /\ p (nth i l d) = true /\
  forall j, (j < i)%nat -> p (nth j l d) = false.
Proof.
  induction l as [|x l IH]; simpl; intros i H; [discriminate|].
  destruct (p x) eqn:Hp.
  - inversion H; subst i. split; [lia|]. split; [exact Hp|]. intros j Hj; lia.
  - apply bind_Ok in H. destruct H as (i' & Hi' & H).
    inversion H; subst i; clear H. destruct (IH _ Hi') as (H1 & H2 & H3).
    split; [lia|]. split; [exact H2|].
    intros [|j] Hj; [exact Hp | apply H3; lia].
Qed.

Lemma feqb_not_NaN (x y : num) : feqb x y = true -> y <> NaN.
Proof.
  destruct x, y; try discriminate; intros _ H; discriminate.
Qed.

Lemma curve_best (srMax periods phases durations times : list num)
  (nbins : Z) (r : bls_result) :
  compute_maximum_residual_curve srMax periods phases durations times nbins
  = Ok r ->
  np_max srMax = Ok (bestSr r) /\
  first_index (fun x => feqb x (bestSr r)) srMax = Ok (bestTrial r) /\
  srmax r = map (fun x => fdiv x (bestSr r)) srMax /\
  trialPeriods r = periods.
Proof.
  unfold compute_maximum_residual_curve. intros H.
  apply bind_Ok in H. destruct H as (b & Hb & H).
  apply bind_Ok in H. destruct H as (i & Hi & H).
  apply bind_Ok in H. destruct H as (td & Htd & H).
  apply bind_Ok in H. destruct H as (ph & Hph & H).
  apply bind_Ok in H. destruct H as (t0 & Ht0 & H).
  inversion H; subst r; clear H. simpl. auto.
Qed.

(** C10: the index that [compute_maximum_residual_curve] returns is the
    first index at which [srMax] equals its maximum: the value there equals
    [bestSr], no earlier value does, and no value of [srMax] is larger than
    [bestSr]. *)
Theorem best_trial_is_first_maximum
  (srMax trialPeriods transitPhase transitDuration intime : list num)
  (nbins : Z) (r : bls_result) :
  compute_maximum_residual_curve srMax trialPeriods transitPhase
                                 transitDuration intime nbins = Ok r ->
  (bestTrial r < length srMax)%nat /\
  feqb (nth (bestTrial r) srMax NaN) (bestSr r) = true /\
  (forall j, (j < bestTrial r)%nat ->
             feqb (nth j srMax NaN) (bestSr r) = false) /\
  (forall x, In x srMax -> fleb x (bestSr r) = true).
Proof.
  intros H. destruct (curve_best _ _ _ _ _ _ _ H) as (Hmax & Hidx & _ & _).
  destruct (first_index_spec _ NaN _ _ Hidx) as (H1 & H2 & H3).
  split; [exact H1|]. split; [exact H2|]. split; [exact H3|].
  pose proof (np_max_upper _ _ Hmax (feqb_not_NaN _ _ H2)) as Hall.
  rewrite Forall_forall in Hall. exact Hall.
Qed.

(** ** Folding into phase bins *)











Lemma insert_by_length {A : Type} (leb : A -> A -> bool) (x : A) (l : list A) :
  length (insert_by leb x l) = S (length l).
Proof.
  induction l as [|y l IH]; simpl; [reflexivity|].
  destruct (leb x y); simpl; [reflexivity | rewrite IH; reflexivity].
Qed.


Lemma sort_by_length {A : Type} (leb : A -> A -> bool) (l : list A) :
  length (sort_by leb l) = length l.
Proof.
  induction l as [|x l IH]; simpl; [reflexivity|].
  rewrite insert_by_length, IH. reflexivity.
Qed.




(** ** Empty bins and windows without a statistic *)










Lemma index_last_snoc {A : Type} (l : list A) (x : A) :
  index_last (l ++ [x]) = Ok x.
Proof. unfold index_last. rewrite rev_app_distr. reflexivity. Qed.

Lemma set_last_snoc {A : Type} (l : list A) (x v : A) :
  set_last (l ++ [x]) v = Ok (l ++ [v]).
Proof.
  unfold set_last. rewrite rev_app_distr. simpl. rewrite rev_involutive.
  reflexivity.
Qed.


(** ** The curve of the best statistics *)

Lemma index_last_inv {A : Type} (l : list A) (x : A) :
  index_last l = Ok x -> exists l', l = l' ++ [x].
Proof.
  unfold index_last. destruct (rev l) as [|y r] eqn:E; [discriminate|].
  intros H; inversion H; subst y. exists (rev r).
  rewrite <- (rev_involutive l), E. reflexivity.
Qed.

Lemma fgtb_statistic (sr top : num) :
  statistic_value top -> fgtb sr top = true -> statistic_value sr.
Proof.
  destruct sr as [| | |a], top as [| | |b]; simpl; intros Hb H;
    try contradiction; try discriminate; try exact I.
  apply fgtb_Fin in H. lra.
Qed.

Lemma sub_iterate_invariant (i1 duration : Z) (s omega : list num) (n : nat)
  (st st' : fits) :
  curve_invariant n st ->
  sub_iterate sqrtQ i1 duration s omega st = Ok st' ->
  curve_invariant n st'.
Proof.
  destruct st as [[srMax tD] tP]. intros [Hlen Hall] H.
  unfold sub_iterate in H.
  apply bind_Ok in H. destruct H as (sr & Hsr & H).
  apply bind_Ok in H. destruct H as (top & Htop & H).
  destruct (fgtb sr top) eqn:Hgt.
  - apply bind_Ok in H. destruct H as (srMax' & Hs & H).
    apply bind_Ok in H. destruct H as (tD' & _ & H).
    apply bind_Ok in H. destruct H as (tP' & _ & H).
    inversion H; subst st'; clear H.
    destruct (index_last_inv _ _ Htop) as [l ->].
    rewrite set_last_snoc in Hs. inversion Hs; subst srMax'; clear Hs.
    apply Forall_app in Hall. destruct Hall as [Hl Ht].
    inversion Ht; subst. split.
    + rewrite ?length_app in *. simpl in *. lia.
    + apply Forall_app. split; [exact Hl|]. constructor; [|constructor].
      eapply fgtb_statistic; eassumption.
  - inversion H; subst st'. split; assumption.
Qed.

Lemma foldM_invariant {A S : Type} (I : S -> Prop)
  (body : S -> A -> result S) (l : list A) :
  (forall st x st', I st -> body st x = Ok st' -> I st') ->
  forall st st', I st -> foldM body l st = Ok st' -> I st'.
Proof.
  intros Hb. induction l as [|x l IH]; simpl; intros st st' Hst H.
  - inversion H; subst; exact Hst.
  - apply bind_Ok in H. destruct H as (st1 & H1 & H).
    eapply IH; [|exact H]. eapply Hb; eassumption.
Qed.

Lemma iterate_trialp_durations_invariant (s omega : list num)
  (nbins duration1 duration2 halfHour : Z) (n : nat) (st st' : fits) :
  curve_invariant n st ->
  iterate_trialp_durations sqrtQ s omega nbins duration1 duration2 halfHour st
  = Ok st' ->
  curve_invariant n st'.
Proof.
  unfold iterate_trialp_durations. apply foldM_invariant.
  intros st0 i1 st1 H0 H. apply bind_Ok in H. destruct H as (durs & _ & H).
  revert st0 st1 H0 H. apply foldM_invariant.
  intros st2 d st3. apply sub_iterate_invariant.
Qed.

Lemma period_iteration_invariant (complete : Z) (periods : list num)
  (trialPeriod : num) (st : fits) (nbins : Z) (mindur maxdur : num)
  (w1 w2 err : list num) (n : nat) (st' : fits) (complete' : Z) :
  curve_invariant n st ->
  period_iteration sqrtQ complete periods trialPeriod st nbins mindur maxdur
                   w1 w2 err = Ok (st', complete') ->
  curve_invariant (S n) st'.
Proof.
  destruct st as [[srMax tD] tP]. intros [Hlen Hall] H.
  unfold period_iteration in H.
  apply bind_Ok in H. destruct H as (frac & _ & H).
  apply bind_Ok in H. destruct H as (ini & Hini & H).
  destruct ini as [[[[st1 f] d1] d2] hh].
  apply bind_Ok in H. destruct H as ([sarr omega] & _ & H).
  apply bind_Ok in H. destruct H as (st2 & Hit & H).
  inversion H; subst st2 complete'; clear H.
  eapply iterate_trialp_durations_invariant; [|exact Hit].
  unfold initialize_iteration in Hini.
  apply bind_Ok in Hini. destruct Hini as (x1 & _ & Hini).
  apply bind_Ok in Hini. destruct Hini as (x2 & _ & Hini).
  apply bind_Ok in Hini. destruct Hini as (x3 & _ & Hini).
  inversion Hini; subst; clear Hini. split.
  - rewrite length_app. simpl. lia.
  - apply Forall_app. split; [exact Hall|].
    constructor; [simpl; lra | constructor].
Qed.

Lemma period_loop_invariant (periods grid : list num) (nbins : Z)
  (mindur maxdur : num) (w1 w2 err : list num) :
  forall (n : nat) (st : fits) (complete : Z) (st' : fits) (complete' : Z),
  curve_invariant n st ->
  foldM (fun acc trialPeriod =>
           let '(st, complete) := acc in
           period_iteration sqrtQ complete grid trialPeriod st nbins
                            mindur maxdur w1 w2 err)
        periods (st, complete) = Ok (st', complete') ->
  curve_invariant (n + length periods) st'.
Proof.
  induction periods as [|p periods IH]; simpl; intros n st c st' c' Hst H.
  - inversion H; subst. rewrite Nat.add_0_r. exact Hst.
  - apply bind_Ok in H. destruct H as ([st1 c1] & H1 & H).
    replace (n + S (length periods))%nat with (S n + length periods)%nat by lia.
    eapply IH; [|exact H]. eapply period_iteration_invariant; eassumption.
Qed.

Lemma period_search_curve (ts : series) (minper maxper mindur maxdur : num)
  (nsearch nbins : Z) (grid srMax tD tP : list num) :
  period_search sqrtQ ts minper maxper mindur maxdur nsearch nbins
  = Ok (grid, (srMax, tD, tP)) ->
  trial_period_grid minper maxper nsearch = Ok grid /\
  length srMax = length grid /\ Forall statistic_value srMax.
Proof.
  unfold period_search. intros H.
  apply bind_Ok in H. destruct H as (g & Hg & H).
  apply bind_Ok in H. destruct H as ([st c] & Hloop & H).
  inversion H; subst g st; clear H. split; [exact Hg|].
  apply (period_loop_invariant grid grid nbins mindur maxdur _ _ _ O) in Hloop.
  - exact Hloop.
  - split; [reflexivity | constructor].
Qed.

Lemma bls_search_stages (flux_list : list sample)
  (minper maxper mindur maxdur : num) (nsearch nbins : Z) (r : bls_result) :
  bls_search sqrtQ flux_list minper maxper mindur maxdur nsearch nbins = Ok r ->
  exists ts grid srMax tD tP,
    prepare_time_series flux_list = Ok ts /\
    check_period (intime ts) maxper = Ok tt /\
    period_search sqrtQ ts minper maxper mindur maxdur nsearch nbins
    = Ok (grid, (srMax, tD, tP)) /\
    compute_maximum_residual_curve srMax grid tP tD (intime ts) nbins = Ok r.
Proof.
  unfold bls_search. intros H.
  apply bind_Ok in H. destruct H as (ts & Hts & H).
  apply bind_Ok in H. destruct H as ([] & Hc & H).
  apply bind_Ok in H. destruct H as ([grid [[srMax tD] tP]] & Hp & H).
  exists ts, grid, srMax, tD, tP. auto.
Qed.



End Properties.

(** ** The code on concrete series *)

(** C1, on the code: for the series [dip_flux_list] with flux error 2,
    folded at the trial period 2 into 2 bins as the search does, the array
    [omega] that the scan of the windows receives is the array of the
    dispersions itself: over the window [0, 2) it sums to 4 and over the two
    bins to 4, where the normalized inverse-square weights, those of
    [compute_weights], sum to 1/2 over the window. *)
Theorem omega_is_raw_dispersion :
  exists ts work4 work5 s omega s' omega',
    prepare_time_series (dip_flux_list (Fin 2)) = Ok ts /\
    initialize_iteration ([fzero], [NaN], [NaN]) (Fin 2) (Fin 1) (Fin 2) 2
    = Ok ([fzero; fzero], [NaN; NaN], [NaN; NaN], Fin (1 # 2), 2, 3, 1) /\
    compute_folded Qsqrt_down 2 (work1 ts) (work2 ts) (inerr ts)
                   (Fin (1 # 2)) 3 = Ok (work4, work5) /\
    folded_s_omega Qsqrt_down 2 (work1 ts) (work2 ts) (inerr ts)
                   (Fin (1 # 2)) 3 = Ok (s, omega) /\
    s = work4 /\ omega = work5 /\
    compute_weights work4 work5 = Ok (s', omega') /\
    omega' = weights_as_specified work5 /\
    feqb (np_sum (slice omega 0 2)) (Fin 4) = true /\
    feqb (np_sum (slice omega' 0 2)) (Fin (1 # 2)) = true /\
    feqb (np_sum (slice omega 0 2)) (np_sum (slice omega' 0 2)) = false.
Proof.
  do 7 eexists. repeat split; vm_compute; reflexivity.
Qed.

(** C2, on the code: the two samples of [unsorted_flux_list] come out with
    the times 0 and 1, but the first output row pairs the time 0 of the
    second sample with the flux 5 and the centered flux -1 of the first one:
    it is no row of the input, and the series differs from the one that
    sorting whole rows by time gives. *)
Theorem columns_sorted_independently :
  sort_axis0 unsorted_flux_list =
    [(Fin 0, Fin 5, Fin (1 # 4)); (Fin 1, Fin 7, Fin (1 # 2))] /\
  ~ In (Fin 0, Fin 5, Fin (1 # 4)) unsorted_flux_list /\
  rows_sorted_by_time unsorted_flux_list =
    [(Fin 0, Fin 7, Fin (1 # 4)); (Fin 1, Fin 5, Fin (1 # 2))] /\
  prepare_time_series unsorted_flux_list =
    Ok {| intime := [Fin 0; Fin 1];
          work1 := [Fin 0; Fin 1];
          work2 := [Fin (-2 # 2); Fin (2 # 2)];
          inerr := [Fin (1 # 4); Fin (1 # 2)] |} /\
  prepare_as_specified unsorted_flux_list =
    Ok {| intime := [Fin 0; Fin 1];
          work1 := [Fin 0; Fin 1];
          work2 := [Fin (2 # 2); Fin (-2 # 2)];
          inerr := [Fin (1 # 4); Fin (1 # 2)] |}.
Proof.
  split; [vm_compute; reflexivity|].
  split; [intros [H|[H|[]]]; discriminate H|].
  repeat split; vm_compute; reflexivity.
Qed.


(** The same happens when the best statistic is infinite: with the flux
    error 1/2 a window of two bins has the weight sum 1, its statistic is a
    division by zero, and the entry of the best period is inf/inf = NaN. *)
Lemma infinite_best_curve_has_NaN :
  exists r,
    bls_search Qsqrt_down (dip_flux_list (Fin (1 # 2)))
               (Fin 1) (Fin 2) (Fin 1) (Fin 2) 1 2 = Ok r /\
    bestSr r = PInf /\ bestTrial r = 1%nat /\
    srmax r = [Fin 0; NaN] /\
    ~ unit_peak_curve 1 r.
Proof.
  eexists. split; [vm_compute; reflexivity|].
  repeat (split; [reflexivity|]).
  intros (_ & H & _). destruct (H NaN) as (q & Hq & _).
  - right; left; reflexivity.
  - discriminate Hq.
Qed.

(** On the window [0, 2) of the folded [dip_flux_list] with flux error 2 the
    weight sum is 4: the radicand without the absolute value is negative,
    and its root raises, where [signal_residue] returns a value. *)
Lemma signed_radicand_raises :
  math_sqrt Qsqrt_down
    (fdiv (Fin 2) (fmul (Fin 4) (fsub fone (Fin 4)))) = Raise ValueError /\
  exists sr,
    signal_residue Qsqrt_down 0 2 [Fin (-1); Fin 1; Fin (-1); Fin 1]
                   [Fin 2; Fin 2; Fin 2; Fin 2] = Ok (Fin sr).
Proof.
  split; [vm_compute; reflexivity|]. eexists. vm_compute. reflexivity.
Qed.

(** ** The theorems at work on concrete inputs *)







Lemma best_trial_is_first_maximum_witness :
  compute_maximum_residual_curve
    tie_srMax [Fin 1; Fin 2; Fin 3; Fin 4] [Fin 1; Fin 1; Fin 1; Fin 1]
    [Fin 2; Fin 2; Fin 2; Fin 2] [Fin 0] 2 = Ok tie_result /\
  bestTrial tie_result = 1%nat /\
  feqb (nth 1 tie_srMax NaN) (bestSr tie_result) = true /\
  feqb (nth 2 tie_srMax NaN) (bestSr tie_result) = true /\
  (forall j, (j < 1)%nat ->
             feqb (nth j tie_srMax NaN) (bestSr tie_result) = false).
Proof.
  assert (H : compute_maximum_residual_curve
                tie_srMax [Fin 1; Fin 2; Fin 3; Fin 4]
                [Fin 1; Fin 1; Fin 1; Fin 1] [Fin 2; Fin 2; Fin 2; Fin 2]
                [Fin 0] 2 = Ok tie_result) by (vm_compute; reflexivity).
  split; [exact H|]. split; [reflexivity|].
  destruct (best_trial_is_first_maximum _ _ _ _ _ _ _ H)
    as (_ & Hbest & Hfirst & _).
  split; [exact Hbest|]. split; [reflexivity | exact Hfirst].
Defined.

(** * Further properties of the code *)

(** ** Sorting *)

Lemma insert_by_Permutation {A : Type} (leb : A -> A -> bool) (x : A)
  (l : list A) : Permutation (insert_by leb x l) (x :: l).
Proof.
  induction l as [|y l IH]; simpl; [reflexivity|].
  destruct (leb x y); [reflexivity|].
  rewrite IH. apply perm_swap.
Qed.

Lemma sort_by_Permutation {A : Type} (leb : A -> A -> bool) (l : list A) :
  Permutation (sort_by leb l) l.
Proof.
  induction l as [|x l IH]; simpl; [reflexivity|].
  rewrite insert_by_Permutation. constructor. exact IH.
Qed.

Lemma insert_by_Sorted {A : Type} (leb : A -> A -> bool) (x : A) (l : list A) :
  (forall a b, leb a b = false -> leb b a = true) ->
  Sorted (fun a b => leb a b = true) l ->
  Sorted (fun a b => leb a b = true) (insert_by leb x l).
Proof.
  intros Htot. induction 1 as [|y l Hl IH Hy]; simpl.
  - repeat constructor.
  - destruct (leb x y) eqn:E.
    + constructor; [constructor; assumption | constructor; exact E].
    + constructor; [exact IH|].
      destruct l as [|z l]; simpl.
      * constructor. apply Htot. exact E.
      * destruct (leb x z); constructor.
        -- apply Htot. exact E.
        -- inversion Hy; assumption.
Qed.

Lemma sort_by_Sorted {A : Type} (leb : A -> A -> bool) (l : list A) :
  (forall a b, leb a b = false -> leb b a = true) ->
  Sorted (fun a b => leb a b = true) (sort_by leb l).
Proof.
  intros Htot. induction l as [|x l IH]; simpl; [constructor|].
  apply insert_by_Sorted; assumption.
Qed.

Lemma sort_leb_total (x y : num) : sort_leb x y = false -> sort_leb y x = true.
Proof.
  destruct x as [| | |a], y as [| | |b]; simpl; try reflexivity;
    try discriminate.
  intros H. apply fleb_Fin. destruct (Qlt_le_dec b a) as [Hlt|Hle]; [lra|].
  apply fleb_Fin in Hle. congruence.
Qed.

Lemma sort_leb_trans (x y z : num) :
  sort_leb x y = true -> sort_leb y z = true -> sort_leb x z = true.
Proof.
  destruct x as [| | |a], y as [| | |b], z as [| | |c]; simpl;
    try reflexivity; try discriminate.
  rewrite !fleb_Fin. intros; lra.
Qed.

Lemma np_sort_StronglySorted (l : list num) :
  StronglySorted (fun a b => sort_leb a b = true) (np_sort l).
Proof.
  apply Sorted_StronglySorted.
  - intros x y z. apply sort_leb_trans.
  - apply sort_by_Sorted. apply sort_leb_total.
Qed.

Lemma map_fst_combine {A B : Type} (a : list A) (b : list B) :
  length a = length b -> map fst (combine a b) = a.
Proof.
  revert b. induction a as [|x a IH]; intros [|y b] H; simpl in *;
    try discriminate; [reflexivity|]. rewrite IH by lia. reflexivity.
Qed.

Lemma map_snd_combine {A B : Type} (a : list A) (b : list B) :
  length a = length b -> map snd (combine a b) = b.
Proof.
  revert b. induction a as [|x a IH]; intros [|y b] H; simpl in *;
    try discriminate; [reflexivity|]. rewrite IH by lia. reflexivity.
Qed.

Lemma np_sort_length (l : list num) : length (np_sort l) = length l.
Proof. apply sort_by_length. Qed.

Lemma sort_axis0_columns (flux_array : list sample) :
  map time_of (sort_axis0 flux_array) = np_sort (map time_of flux_array) /\
  map flux_of (sort_axis0 flux_array) = np_sort (map flux_of flux_array) /\
  map err_of (sort_axis0 flux_array) = np_sort (map err_of flux_array).
Proof.
  unfold sort_axis0, time_of, flux_of, err_of.
  assert (H1 : length (combine (np_sort (map (fun r : sample => fst (fst r)) flux_array))
                               (np_sort (map (fun r : sample => snd (fst r)) flux_array)))
               = length (np_sort (map (fun r : sample => snd r) flux_array))).
  { rewrite length_combine, !np_sort_length, !length_map. lia. }
  assert (H2 : length (np_sort (map (fun r : sample => fst (fst r)) flux_array))
               = length (np_sort (map (fun r : sample => snd (fst r)) flux_array))).
  { rewrite !np_sort_length, !length_map. reflexivity. }
  repeat split.
  - unfold sample. rewrite <- (map_map (@fst (num * num) num) (@fst num num)).
    rewrite map_fst_combine by exact H1.
    apply map_fst_combine. exact H2.
  - unfold sample. rewrite <- (map_map (@fst (num * num) num) (@snd num num)).
    rewrite map_fst_combine by exact H1.
    apply map_snd_combine. exact H2.
  - apply map_snd_combine. exact H1.
Qed.

(** X1: every column of the array sorted along axis 0 holds the values of
    the same column of the input, in ascending order, NaN last. *)
Theorem sort_axis0_sorts_every_column (flux_array : list sample) :
  let ascending := StronglySorted (fun a b => sort_leb a b = true) in
  Permutation (map time_of (sort_axis0 flux_array)) (map time_of flux_array) /\
  Permutation (map flux_of (sort_axis0 flux_array)) (map flux_of flux_array) /\
  Permutation (map err_of (sort_axis0 flux_array)) (map err_of flux_array) /\
  ascending (map time_of (sort_axis0 flux_array)) /\
  ascending (map flux_of (sort_axis0 flux_array)) /\
  ascending (map err_of (sort_axis0 flux_array)) /\
  length (sort_axis0 flux_array) = length flux_array.
Proof.
  intros ascending.
  destruct (sort_axis0_columns flux_array) as (Ht & Hf & He).
  rewrite Ht, Hf, He.
  repeat split; try apply sort_by_Permutation; try apply np_sort_StronglySorted.
  rewrite <- (length_map time_of), Ht, np_sort_length, length_map. reflexivity.
Qed.

Lemma insert_by_head {A : Type} (leb : A -> A -> bool) (x : A) (l : list A) :
  HdRel (fun a b => leb a b = true) x l -> insert_by leb x l = x :: l.
Proof.
  intros H. destruct l as [|y l]; [reflexivity|].
  inversion H; subst. simpl. replace (leb x y) with true. reflexivity.
Qed.

Lemma sort_by_sorted {A : Type} (leb : A -> A -> bool) (l : list A) :
  Sorted (fun a b => leb a b = true) l -> sort_by leb l = l.
Proof.
  induction 1 as [|x l Hl IH Hx]; [reflexivity|].
  simpl. fold (sort_by leb l). rewrite IH. apply insert_by_head. exact Hx.
Qed.

Lemma combine_columns (flux_array : list sample) :
  combine (combine (map time_of flux_array) (map flux_of flux_array))
          (map err_of flux_array) = flux_array.
Proof.
  induction flux_array as [|[[t f] e] l IH]; [reflexivity|].
  simpl. rewrite IH. reflexivity.
Qed.

(** X2: sorting along axis 0 leaves an array as it is exactly when each of
    its three columns is in ascending order already. *)
Theorem sort_axis0_fixes_sorted_columns (flux_array : list sample) :
  let ascending := Sorted (fun a b => sort_leb a b = true) in
  sort_axis0 flux_array = flux_array <->
  ascending (map time_of flux_array) /\
  ascending (map flux_of flux_array) /\
  ascending (map err_of flux_array).
Proof.
  intros ascending. split.
  - intros E. destruct (sort_axis0_columns flux_array) as (Ht & Hf & He).
    rewrite E in Ht, Hf, He. rewrite Ht, Hf, He.
    repeat split; apply StronglySorted_Sorted, np_sort_StronglySorted.
  - intros (Ht & Hf & He). unfold sort_axis0, np_sort.
    rewrite !sort_by_sorted by assumption. apply combine_columns.
Qed.

(** ** The prepared series *)

Lemma filter_length_Permutation {A : Type} (p : A -> bool) (l l' : list A) :
  Permutation l l' -> length (filter p l) = length (filter p l').
Proof.
  induction 1 as [|x l l' H IH|x y l|l l' l'' H1 IH1 H2 IH2]; simpl.
  - reflexivity.
  - destruct (p x); simpl; rewrite IH; reflexivity.
  - destruct (p x), (p y); reflexivity.
  - rewrite IH1. exact IH2.
Qed.

Lemma filter_map_length {A B : Type} (f : A -> B) (p : B -> bool) (l : list A) :
  length (filter (fun x => p (f x)) l) = length (filter p (map f l)).
Proof.
  induction l as [|x l IH]; simpl; [reflexivity|].
  destruct (p (f x)); simpl; rewrite IH; reflexivity.
Qed.

Lemma filter_nil_Forall {A : Type} (p : A -> bool) (l : list A) :
  length (filter p l) = O <-> Forall (fun x => p x = false) l.
Proof.
  induction l as [|x l IH]; simpl.
  - split; [constructor | reflexivity].
  - destruct (p x) eqn:E; simpl.
    + split; [discriminate|]. intros H. inversion H; congruence.
    + rewrite IH. split; [constructor; assumption|].
      intros H. inversion H; assumption.
Qed.

Lemma kept_rows_count (flux_list : list sample) :
  length (filter (fun r => isfinite (flux_of r)) (sort_axis0 flux_list)) =
  length (filter (fun r => isfinite (flux_of r)) flux_list).
Proof.
  rewrite !(filter_map_length flux_of isfinite).
  destruct (sort_axis0_columns flux_list) as (_ & Hf & _). rewrite Hf.
  apply filter_length_Permutation. apply sort_by_Permutation.
Qed.

(** X3: the preparation raises on exactly the inputs without a sample of
    finite flux, the empty input among them, and then raises [IndexError];
    otherwise it keeps as many samples as the input has finite flux
    values. *)
Theorem prepare_time_series_kept (flux_list : list sample) :
  (prepare_time_series flux_list = Raise IndexError <->
   Forall (fun r => isfinite (flux_of r) = false) flux_list) /\
  (forall e, prepare_time_series flux_list = Raise e -> e = IndexError) /\
  (forall ts, prepare_time_series flux_list = Ok ts ->
     length (intime ts) =
     length (filter (fun r => isfinite (flux_of r)) flux_list)).
Proof.
  pose proof (kept_rows_count flux_list) as Hcount.
  unfold prepare_time_series.
  destruct flux_list as [|r0 fl].
  { split; [split; [constructor | reflexivity]|].
    split; [intros e H; inversion H; reflexivity | discriminate]. }
  remember (filter (fun r => isfinite (flux_of r)) (sort_axis0 (r0 :: fl)))
    as rows eqn:E.
  destruct rows as [|r rs]; cbn [map index_first bind].
  - split; [|split; [intros e H; inversion H; reflexivity | discriminate]].
    split; [intros _|reflexivity].
    apply filter_nil_Forall. rewrite <- Hcount. reflexivity.
  - split; [|split; [discriminate|]].
    + split; [discriminate|]. intros H. apply filter_nil_Forall in H.
      rewrite <- Hcount in H. discriminate H.
    + intros ts H. inversion H; subst ts; clear H. cbn [intime].
      rewrite <- Hcount. cbn [length]. rewrite length_map. reflexivity.
Qed.

Lemma StronglySorted_map_filter {A B : Type} (R : B -> B -> Prop) (f : A -> B)
  (p : A -> bool) (l : list A) :
  StronglySorted R (map f l) -> StronglySorted R (map f (filter p l)).
Proof.
  induction l as [|x l IH]; simpl; intros H; [constructor|].
  inversion H as [|? ? Hs Hall]; subst.
  destruct (p x); simpl; [|apply IH; exact Hs].
  constructor; [apply IH; exact Hs|].
  rewrite Forall_forall in *. intros y Hy. apply Hall.
  apply in_map_iff in Hy. destruct Hy as (z & <- & Hz).
  apply filter_In in Hz. apply in_map. tauto.
Qed.

(** X4: the prepared times are in ascending order; when every time of the
    input is finite, the re-based times start at zero, are finite and none
    is negative. *)
Theorem prepared_times_ascending (flux_list : list sample) (ts : series) :
  prepare_time_series flux_list = Ok ts ->
  StronglySorted (fun a b => sort_leb a b = true) (intime ts) /\
  (Forall (fun r => isfinite (time_of r) = true) flux_list ->
   (exists q0 rest, work1 ts = Fin q0 :: rest /\ (q0 == 0)%Q) /\
   Forall (fun t => exists q, t = Fin q /\ (0 <= q)%Q) (work1 ts)).
Proof.
  unfold prepare_time_series. destruct flux_list as [|r0 fl]; [discriminate|].
  set (rows := filter (fun r => isfinite (flux_of r)) (sort_axis0 (r0 :: fl))).
  intros H. apply bind_Ok in H. destruct H as (t0 & Ht0 & H).
  inversion H; subst ts; clear H. cbn [intime work1].
  destruct (sort_axis0_columns (r0 :: fl)) as (Ecol & _ & _).
  assert (Hperm : Permutation (map time_of (sort_axis0 (r0 :: fl)))
                              (map time_of (r0 :: fl)))
    by (rewrite Ecol; apply sort_by_Permutation).
  assert (Hsorted : StronglySorted (fun a b => sort_leb a b = true)
                                   (map time_of (sort_axis0 (r0 :: fl))))
    by (rewrite Ecol; apply np_sort_StronglySorted).
  assert (Hs : StronglySorted (fun a b => sort_leb a b = true)
                              (map time_of rows)).
  { apply StronglySorted_map_filter. exact Hsorted. }
  split; [exact Hs|]. intros Hfin.
  assert (Hfin' : Forall (fun t => isfinite t = true) (map time_of rows)).
  { rewrite Forall_forall. intros t Ht.
    apply in_map_iff in Ht. destruct Ht as (r & <- & Hr).
    apply filter_In in Hr. destruct Hr as [Hr _].
    apply (in_map time_of) in Hr.
    apply (Permutation_in _ Hperm) in Hr.
    apply in_map_iff in Hr. destruct Hr as (r' & <- & Hr').
    rewrite Forall_forall in Hfin. apply Hfin. exact Hr'. }
  destruct (map time_of rows) as [|t rest]; [discriminate|].
  inversion Ht0; subst t0; clear Ht0.
  inversion Hs as [|? ? _ Hmin]; subst.
  inversion Hfin' as [|? ? Ht Hrest]; subst.
  destruct t as [| | |q0]; try discriminate.
  assert (H0 : fsub (Fin q0) (Fin q0) = Fin (q0 + - q0)) by reflexivity.
  split.
  - exists (q0 + - q0)%Q. eexists. split; [reflexivity | lra].
  - cbn [map]. constructor.
    + exists (q0 + - q0)%Q. split; [reflexivity | lra].
    + apply Forall_map. rewrite Forall_forall in *.
      intros x Hx. specialize (Hmin x Hx). specialize (Hrest x Hx).
      destruct x as [| | |q]; try discriminate.
      simpl in Hmin. apply fleb_Fin in Hmin.
      exists (q + - q0)%Q. split; [reflexivity | lra].
Qed.

(** Sums of finite values *)

Lemma finite_list (l : list num) :
  Forall (fun x => isfinite x = true) l -> exists qs, l = map Fin qs.
Proof.
  induction 1 as [|x l Hx Hl (qs & ->)]; [exists []; reflexivity|].
  destruct x as [| | |q]; try discriminate. exists (q :: qs). reflexivity.
Qed.

Lemma fold_left_Qsum (qs : list Q) (a : Q) :
  (fold_left Qplus qs a == a + Qsum qs)%Q.
Proof.
  revert a. induction qs as [|q qs IH]; intros a; simpl.
  - ring.
  - rewrite IH. ring.
Qed.

Lemma fold_left_fadd_Fin (qs : list Q) (a : Q) :
  fold_left fadd (map Fin qs) (Fin a) = Fin (fold_left Qplus qs a).
Proof.
  revert a. induction qs as [|q qs IH]; intros a; simpl; [reflexivity|].
  apply IH.
Qed.

Lemma np_sum_Fin (qs : list Q) :
  exists s, np_sum (map Fin qs) = Fin s /\ (s == Qsum qs)%Q.
Proof.
  unfold np_sum, fzero. rewrite fold_left_fadd_Fin.
  eexists. split; [reflexivity|]. rewrite fold_left_Qsum. ring.
Qed.

Lemma Qsum_map_add (c : Q) (qs : list Q) :
  (Qsum (map (fun q => q + c) qs)
   == Qsum qs + inject_Z (Z.of_nat (length qs)) * c)%Q.
Proof.
  induction qs as [|q qs IH].
  - simpl. ring.
  - cbn [map Qsum fold_right length].
    fold (Qsum (map (fun q => (q + c)%Q) qs)).
    fold (Qsum qs). rewrite IH, Nat2Z.inj_succ, <- Z.add_1_r, inject_Z_plus.
    change (inject_Z 1) with 1%Q. ring.
Qed.

(** X5: the centered flux of the prepared series sums to zero. *)
Theorem prepared_flux_centered (flux_list : list sample) (ts : series) :
  prepare_time_series flux_list = Ok ts ->
  num_eq (np_sum (work2 ts)) fzero.
Proof.
  unfold prepare_time_series. destruct flux_list as [|r0 fl]; [discriminate|].
  set (rows := filter (fun r => isfinite (flux_of r)) (sort_axis0 (r0 :: fl))).
  intros H. apply bind_Ok in H. destruct H as (t0 & Ht0 & H).
  inversion H; subst ts; clear H. cbn [work2].
  assert (Hne : rows <> []).
  { intros E. rewrite E in Ht0. discriminate Ht0. }
  assert (Hfin : Forall (fun x => isfinite x = true) (map flux_of rows)).
  { apply Forall_map. rewrite Forall_forall. intros r Hr.
    apply filter_In in Hr. tauto. }
  destruct (finite_list _ Hfin) as (qs & Eqs). rewrite Eqs.
  assert (Hlen : (0 < length qs)%nat).
  { apply (f_equal (@length num)) in Eqs. rewrite !length_map in Eqs.
    destruct rows; [contradiction | simpl in Eqs; lia]. }
  destruct (np_sum_Fin qs) as (s & Hs & Es).
  unfold np_mean. rewrite Hs, length_map.
  assert (Hn : (0 < inject_Z (Z.of_nat (length qs)))%Q)
    by (apply inject_Z_pos; lia).
  unfold of_Z. rewrite fdiv_Fin by lra.
  set (m := (s / inject_Z (Z.of_nat (length qs)))%Q).
  rewrite map_map. cbn [fsub fadd fneg].
  rewrite <- (map_map (fun q => (q + - m)%Q) Fin).
  destruct (np_sum_Fin (map (fun q => (q + - m)%Q) qs)) as (s' & Hs' & Es').
  rewrite Hs'. unfold num_eq, fzero. rewrite Es', Qsum_map_add, <- Es.
  unfold m. field. lra.
Qed.

(** ** Weights, set-up of a period and durations *)

Lemma Qsum_map_scale (c : Q) (qs : list Q) :
  (Qsum (map (fun q => q * c) qs) == Qsum qs * c)%Q.
Proof.
  induction qs as [|q qs IH].
  - simpl. ring.
  - cbn [map Qsum fold_right]. fold (Qsum (map (fun q => (q * c)%Q) qs)).
    fold (Qsum qs). rewrite IH. ring.
Qed.

Lemma Qsum_positive (qs : list Q) :
  qs <> [] -> Forall (fun q => (0 < q)%Q) qs -> (0 < Qsum qs)%Q.
Proof.
  intros Hne Hall. destruct qs as [|q qs]; [contradiction|]. clear Hne.
  inversion Hall as [|? ? Hq Hqs]; subst. clear Hall.
  assert (H0 : (0 <= Qsum qs)%Q).
  { induction Hqs as [|x l Hx Hl IH]; simpl; [lra|].
    fold (Qsum l). lra. }
  cbn [Qsum fold_right]. fold (Qsum qs). lra.
Qed.

Lemma power_minus2_Fin (w : Q) :
  ~ (w == 0)%Q -> power_minus2 (Fin w) = Fin (1 / (w * w)).
Proof.
  intros Hw. unfold power_minus2, fone. cbn [fmul]. apply fdiv_Fin.
  intros H. apply Hw. nra.
Qed.

Lemma inverse_square_positive (w : Q) : ~ (w == 0)%Q -> (0 < 1 / (w * w))%Q.
Proof.
  intros Hw. apply Qlt_shift_div_l; [|lra].
  destruct (Qlt_le_dec w 0); [nra|]. destruct (Qlt_le_dec 0 w); [nra|].
  exfalso. apply Hw. lra.
Qed.

Lemma np_nansum_Fin (qs : list Q) : np_nansum (map Fin qs) = np_sum (map Fin qs).
Proof.
  unfold np_nansum. f_equal. rewrite map_map. reflexivity.
Qed.

(** X6: on finite, non-zero dispersions the weights of [compute_weights]
    are the inverse squares of the dispersions divided by their sum: they
    are positive and sum to 1, and the weighted curve is their product with
    the bin means. *)
Theorem compute_weights_normalized (work4 : list num) (ws : list Q)
  (s omega : list num) :
  ws <> [] ->
  Forall (fun w => ~ (w == 0)%Q) ws ->
  compute_weights work4 (map Fin ws) = Ok (s, omega) ->
  num_eq (np_sum omega) fone /\
  Forall (fun x => exists q, x = Fin q /\ (0 < q)%Q) omega /\
  length omega = length ws /\
  np_binop fmul omega work4 = Ok s.
Proof.
  intros Hne Hws H. unfold compute_weights in H.
  apply bind_Ok in H. destruct H as (s0 & Hs0 & H).
  inversion H; subst s0 omega; clear H.
  set (invsq := map (fun w => (1 / (w * w))%Q) ws).
  assert (Einv : map power_minus2 (map Fin ws) = map Fin invsq).
  { unfold invsq. rewrite !map_map. apply map_ext_in. intros w Hw.
    apply power_minus2_Fin. rewrite Forall_forall in Hws. apply Hws. exact Hw. }
  assert (Hpos : Forall (fun q => (0 < q)%Q) invsq).
  { unfold invsq. apply Forall_map. eapply Forall_impl; [|exact Hws].
    intros w. apply inverse_square_positive. }
  assert (Hne' : invsq <> []).
  { unfold invsq. destruct ws; [contradiction | discriminate]. }
  pose proof (Qsum_positive invsq Hne' Hpos) as HT.
  rewrite Einv, np_nansum_Fin in *.
  destruct (np_sum_Fin invsq) as (T & HsT & ET). rewrite HsT in *.
  assert (Eomega : map (fun w => fdiv (power_minus2 w) (Fin T)) (map Fin ws)
                   = map Fin (map (fun a => (a * / T)%Q) invsq)).
  { unfold invsq. rewrite !map_map. apply map_ext_in. intros w Hw.
    rewrite power_minus2_Fin
      by (rewrite Forall_forall in Hws; apply Hws; exact Hw).
    apply fdiv_Fin. lra. }
  rewrite Eomega in *. split; [|split; [|split]].
  - destruct (np_sum_Fin (map (fun a => (a * / T)%Q) invsq)) as (u & Hu & Eu).
    rewrite Hu. unfold num_eq, fone. rewrite Eu, Qsum_map_scale, <- ET.
    field. lra.
  - apply Forall_map, Forall_map. eapply Forall_impl; [|exact Hpos].
    intros a Ha. exists (a * / T)%Q. split; [reflexivity|].
    apply Qmult_lt_0_compat; [exact Ha|]. apply Qinv_lt_0_compat. lra.
  - unfold invsq. rewrite !length_map. reflexivity.
  - exact Hs0.
Qed.




(** X8: with a step of at least one bin, the durations that the scan of a
    trial period visits are exactly the values between [duration1] and
    [duration2] at a multiple of the step from [duration1]; [duration1]
    itself is one of them. *)
Theorem scanned_durations (duration1 duration2 halfHour : Z) :
  1 <= halfHour -> duration1 <= duration2 ->
  exists durations,
    py_range duration1 (duration2 + 1) halfHour = Ok durations /\
    In duration1 durations /\
    forall d, In d durations <->
              duration1 <= d <= duration2 /\ (d - duration1) mod halfHour = 0.
Proof.
  intros Hh Hd. unfold py_range.
  replace (halfHour =? 0) with false by (symmetry; apply Z.eqb_neq; lia).
  replace (0 <? halfHour) with true by (symmetry; apply Z.ltb_lt; lia).
  set (n := (duration2 + 1 - duration1 + halfHour - 1) / halfHour).
  assert (Hn : forall k, 0 <= k -> (k < n <-> k * halfHour <= duration2 - duration1)).
  { intros k Hk. unfold n.
    pose proof (Z.div_mod (duration2 + 1 - duration1 + halfHour - 1) halfHour
                  ltac:(lia)) as E.
    pose proof (Z.mod_pos_bound (duration2 + 1 - duration1 + halfHour - 1)
                  halfHour ltac:(lia)) as B.
    split; intros H; nia. }
  assert (Hmem : forall d, In d (map (fun k => duration1 + Z.of_nat k * halfHour)
                                     (seq 0 (Z.to_nat n)))
                           <-> duration1 <= d <= duration2 /\
                               (d - duration1) mod halfHour = 0).
  { intros d. rewrite in_map_iff. split.
    - intros (k & <- & Hk). apply in_seq in Hk.
      assert (Hkn : Z.of_nat k < n) by lia.
      apply Hn in Hkn; [|lia]. split; [nia|].
      replace (duration1 + Z.of_nat k * halfHour - duration1)
        with (Z.of_nat k * halfHour) by ring.
      apply Z.mod_mul. lia.
    - intros [Hd' Hm].
      apply Z.mod_divide in Hm; [|lia]. destruct Hm as [k Hk].
      assert (Hk0 : 0 <= k) by nia.
      exists (Z.to_nat k). split; [rewrite Z2Nat.id by lia; lia|].
      apply in_seq. split; [lia|].
      assert (Hkn : k < n) by (apply Hn; [lia | nia]). lia. }
  eexists. split; [reflexivity|]. split; [|exact Hmem].
  apply Hmem. split; [lia|]. rewrite Z.sub_diag. apply Z.mod_0_l. lia.
Qed.

(** ** The scan of the windows *)

Section Scan.

Variable sqrtQ : Q -> Q.

Lemma foldM_app {A S : Type} (body : S -> A -> result S) (l1 l2 : list A)
  (st : S) :
  foldM body (l1 ++ l2) st = bind (foldM body l1 st) (foldM body l2).
Proof.
  revert st. induction l1 as [|x l1 IH]; intros st; simpl; [reflexivity|].
  destruct (body st x) as [st'|e]; simpl; [apply IH | reflexivity].
Qed.

Lemma foldM_map {A B S : Type} (body : S -> B -> result S) (f : A -> B)
  (l : list A) (st : S) :
  foldM body (map f l) st = foldM (fun st x => body st (f x)) l st.
Proof.
  revert st. induction l as [|x l IH]; intros st; simpl; [reflexivity|].
  destruct (body st (f x)) as [st'|e]; simpl; [apply IH | reflexivity].
Qed.

(** The scan of a trial period is one loop over the windows, taken phase
    by phase and, for one phase, duration by duration. *)
Lemma iterate_trialp_durations_windows (s omega : list num)
  (nbins duration1 duration2 halfHour : Z) (durations : list Z) (st : fits) :
  py_range duration1 (duration2 + 1) halfHour = Ok durations ->
  iterate_trialp_durations sqrtQ s omega nbins duration1 duration2 halfHour st
  = foldM (fun st w => sub_iterate sqrtQ (fst w) (snd w) s omega st)
          (list_prod (range nbins) durations) st.
Proof.
  intros Hr. unfold iterate_trialp_durations. rewrite Hr. cbn [bind].
  revert st. induction (range nbins) as [|i1 l IH]; intros st;
    [reflexivity|].
  cbn [foldM list_prod]. rewrite foldM_app, foldM_map. cbn [fst snd].
  destruct (foldM _ durations st) as [st'|e]; simpl; [apply IH | reflexivity].
Qed.

Lemma foldM_scan {A S : Type} (body : S -> A -> result S) (Inv : S -> Prop)
  (P : A -> S -> Prop) (all : list A) :
  (forall st x st', In x all -> Inv st -> body st x = Ok st' ->
                    Inv st' /\ P x st') ->
  (forall x st y st', In y all -> Inv st -> P x st -> body st y = Ok st' ->
                      P x st') ->
  forall l done, incl l all ->
  forall st st', Inv st -> (forall x, In x done -> P x st) ->
  foldM body l st = Ok st' ->
  Inv st' /\ forall x, In x done \/ In x l -> P x st'.
Proof.
  intros Hstep Hkeep. induction l as [|y l IH]; intros done Hincl st st' Hst Hd H.
  - inversion H; subst. split; [exact Hst|]. intros x [Hx|[]]. apply Hd, Hx.
  - simpl in H. apply bind_Ok in H. destruct H as (st1 & H1 & H).
    assert (Hy : In y all) by (apply Hincl; left; reflexivity).
    destruct (Hstep _ _ _ Hy Hst H1) as [Hst1 Py].
    destruct (IH (y :: done)
                 ltac:(intros z Hz; apply Hincl; right; exact Hz)
                 st1 st' Hst1) as [Hst' HP]; [|exact H|].
    + intros x [<-|Hx]; [exact Py|].
      eapply Hkeep; [exact Hy | exact Hst | apply Hd, Hx | exact H1].
    + split; [exact Hst'|]. intros x [Hx|[<-|Hx]]; apply HP.
      * left; right; exact Hx.
      * left; left; reflexivity.
      * right; exact Hx.
Qed.

Lemma fgtb_irrefl (x : num) : fgtb x x = false.
Proof.
  destruct x as [| | |a]; try reflexivity.
  destruct (fgtb (Fin a) (Fin a)) eqn:E; [|reflexivity].
  apply fgtb_Fin in E. lra.
Qed.

Lemma fgtb_fleb (x y : num) : fgtb x y = true -> fleb y x = true /\ x <> NaN.
Proof.
  destruct x as [| | |a], y as [| | |b]; try discriminate;
    try (intros _; split; [reflexivity | discriminate]).
  intros H. apply fgtb_Fin in H. split; [apply fleb_Fin; lra | discriminate].
Qed.

Lemma fgtb_false_mono (x a b : num) :
  fgtb x a = false -> fleb a b = true -> fgtb x b = false.
Proof.
  destruct x as [| | |p], a as [| | |q], b as [| | |r];
    try reflexivity; try discriminate.
  intros H1 H2. apply fleb_Fin in H2.
  destruct (fgtb (Fin p) (Fin r)) eqn:E; [|reflexivity].
  apply fgtb_Fin in E.
  assert (H : fgtb (Fin p) (Fin q) = true) by (apply fgtb_Fin; lra).
  congruence.
Qed.

Lemma fgtb_fleb_trans (x a b : num) :
  fgtb x a = true -> fleb b a = true -> fgtb x b = true.
Proof.
  destruct x as [| | |p], a as [| | |q], b as [| | |r];
    try reflexivity; try discriminate.
  intros H1 H2. apply fgtb_Fin in H1. apply fleb_Fin in H2.
  apply fgtb_Fin. lra.
Qed.

Lemma fleb_refl (x : num) : x <> NaN -> fleb x x = true.
Proof.
  destruct x as [| | |a]; intros H; try reflexivity; [contradiction|].
  apply fleb_Fin. lra.
Qed.

(** X9: the scan of the windows of a trial period, started on arrays whose
    last entries are [top], [d0] and [p0], changes these last entries only.
    It leaves them as they are, or it records the statistic of a window that
    it visited, larger than [top], together with the duration and the
    center of that window; in both cases no window that it visited has a
    statistic larger than the recorded one. *)
Theorem scan_keeps_best_window (s omega : list num)
  (nbins duration1 duration2 halfHour : Z) (durations : list Z)
  (l1 l2 l3 : list num) (top d0 p0 : num) (st' : fits) :
  py_range duration1 (duration2 + 1) halfHour = Ok durations ->
  top <> NaN ->
  iterate_trialp_durations sqrtQ s omega nbins duration1 duration2 halfHour
                           (l1 ++ [top], l2 ++ [d0], l3 ++ [p0]) = Ok st' ->
  exists sr dd pp,
    st' = (l1 ++ [sr], l2 ++ [dd], l3 ++ [pp]) /\
    ((sr, dd, pp) = (top, d0, p0) \/
     exists i1 d,
       In i1 (range nbins) /\ In d durations /\
       signal_residue sqrtQ i1 d s omega = Ok sr /\
       fgtb sr top = true /\
       dd = of_Z d /\ pp = of_Z ((i1 + (i1 + d)) / 2)) /\
    (forall i1 d sr',
       In i1 (range nbins) -> In d durations ->
       signal_residue sqrtQ i1 d s omega = Ok sr' ->
       fgtb sr' sr = false).
Proof.
  intros Hr Htop H.
  rewrite (iterate_trialp_durations_windows _ _ _ _ _ _ _ _ Hr) in H.
  set (windows := list_prod (range nbins) durations) in *.
  set (Inv := fun st : fits =>
    exists sr dd pp,
      st = (l1 ++ [sr], l2 ++ [dd], l3 ++ [pp]) /\
      sr <> NaN /\ fleb top sr = true /\
      ((sr, dd, pp) = (top, d0, p0) \/
       exists i1 d,
         In i1 (range nbins) /\ In d durations /\
         signal_residue sqrtQ i1 d s omega = Ok sr /\
         fgtb sr top = true /\
         dd = of_Z d /\ pp = of_Z ((i1 + (i1 + d)) / 2))).
  set (P := fun (w : Z * Z) (st : fits) =>
    forall sr' cur,
      signal_residue sqrtQ (fst w) (snd w) s omega = Ok sr' ->
      index_last (fst (fst st)) = Ok cur ->
      fgtb sr' cur = false).
  assert (Hstep : forall st w st', In w windows -> Inv st ->
            sub_iterate sqrtQ (fst w) (snd w) s omega st = Ok st' ->
            Inv st' /\ P w st' /\
            (forall cur cur', index_last (fst (fst st)) = Ok cur ->
                              index_last (fst (fst st')) = Ok cur' ->
                              fleb cur cur' = true)).
  { intros st [i1 d] st1 Hw (sr & dd & pp & -> & Hnan & Hle & Hrec) Hb.
    apply in_prod_iff in Hw. destruct Hw as [Hi Hd].
    cbn [fst snd] in *. unfold sub_iterate in Hb.
    apply bind_Ok in Hb. destruct Hb as (srw & Hsrw & Hb).
    rewrite index_last_snoc in Hb. cbn [bind] in Hb.
    destruct (fgtb srw sr) eqn:Hgt.
    - rewrite !set_last_snoc in Hb. cbn [bind] in Hb.
      inversion Hb; subst st1; clear Hb.
      destruct (fgtb_fleb _ _ Hgt) as [Hle' Hnan'].
      split; [|split].
      + exists srw, (of_Z d), (of_Z ((i1 + (i1 + d)) / 2)).
        split; [reflexivity|]. split; [exact Hnan'|].
        split; [eapply fleb_trans; eassumption|].
        right. exists i1, d. repeat (split; [assumption|]).
        split; [eapply fgtb_fleb_trans; eassumption|]. split; reflexivity.
      + intros sr' cur Hs Hc. cbn [fst snd] in Hs, Hc.
        rewrite index_last_snoc in Hc. inversion Hc; subst cur.
        rewrite Hsrw in Hs. inversion Hs; subst sr'. apply fgtb_irrefl.
      + intros cur cur' Hc Hc'. cbn [fst] in Hc, Hc'.
        rewrite index_last_snoc in Hc, Hc'.
        inversion Hc; inversion Hc'; subst. exact Hle'.
    - inversion Hb; subst st1; clear Hb. split; [|split].
      + exists sr, dd, pp. auto.
      + intros sr' cur Hs Hc. cbn [fst snd] in Hs, Hc.
        rewrite index_last_snoc in Hc. inversion Hc; subst cur.
        rewrite Hsrw in Hs. inversion Hs; subst sr'. exact Hgt.
      + intros cur cur' Hc Hc'. cbn [fst] in Hc, Hc'.
        rewrite index_last_snoc in Hc, Hc'.
        inversion Hc; inversion Hc'; subst. apply fleb_refl. exact Hnan. }
  destruct (foldM_scan
              (fun st w => sub_iterate sqrtQ (fst w) (snd w) s omega st)
              Inv P windows) with (l := windows) (done := @nil (Z * Z))
              (st := (l1 ++ [top], l2 ++ [d0], l3 ++ [p0])) (st' := st')
    as [(sr & dd & pp & -> & _ & _ & Hrec) HP].
  - intros st w st1 Hw Hst Hb. destruct (Hstep _ _ _ Hw Hst Hb) as (A & B & _).
    split; assumption.
  - intros x st y st1 Hy Hst Px Hb sr' cur' Hs Hc'.
    destruct (Hstep _ _ _ Hy Hst Hb) as (_ & _ & Hmono).
    destruct Hst as (sr & dd & pp & -> & _).
    eapply fgtb_false_mono.
    + apply (Px sr' sr Hs). cbn [fst]. apply index_last_snoc.
    + apply Hmono; [cbn [fst]; apply index_last_snoc | exact Hc'].
  - intros w Hw; exact Hw.
  - exists top, d0, p0. split; [reflexivity|]. split; [exact Htop|].
    split; [apply fleb_refl; exact Htop | left; reflexivity].
  - intros x [].
  - exact H.
  - exists sr, dd, pp. split; [reflexivity|]. split; [exact Hrec|].
    intros i1 d sr' Hi Hd Hs.
    apply (HP (i1, d)); [right; apply in_prod; assumption | exact Hs |].
    cbn [fst]. apply index_last_snoc.
Qed.

End Scan.

(** ** The shape of the folded arrays and of the result *)

Section Shape.

Variable sqrtQ : Q -> Q.




Lemma set_last_length {A : Type} (l l' : list A) (v : A) :
  set_last l v = Ok l' -> length l' = length l.
Proof.
  unfold set_last. destruct (rev l) as [|x r] eqn:E; [discriminate|].
  intros H; inversion H; subst l'.
  rewrite <- (length_rev l), E, length_app, length_rev. simpl. lia.
Qed.

Lemma sub_iterate_length (i1 duration : Z) (s omega : list num) (n : nat)
  (st st' : fits) :
  fits_length n st ->
  sub_iterate sqrtQ i1 duration s omega st = Ok st' ->
  fits_length n st'.
Proof.
  destruct st as [[srMax tD] tP]. intros (H1 & H2 & H3) H.
  unfold sub_iterate in H.
  apply bind_Ok in H. destruct H as (sr & _ & H).
  apply bind_Ok in H. destruct H as (top & _ & H).
  destruct (fgtb sr top).
  - apply bind_Ok in H. destruct H as (a & Ha & H).
    apply bind_Ok in H. destruct H as (b & Hb & H).
    apply bind_Ok in H. destruct H as (c & Hc & H).
    inversion H; subst st'.
    apply set_last_length in Ha, Hb, Hc. repeat split; congruence.
  - inversion H; subst st'. repeat split; assumption.
Qed.

Lemma iterate_trialp_durations_length (s omega : list num)
  (nbins duration1 duration2 halfHour : Z) (n : nat) (st st' : fits) :
  fits_length n st ->
  iterate_trialp_durations sqrtQ s omega nbins duration1 duration2 halfHour st
  = Ok st' ->
  fits_length n st'.
Proof.
  unfold iterate_trialp_durations. apply foldM_invariant.
  intros st0 i1 st1 H0 H. apply bind_Ok in H. destruct H as (durs & _ & H).
  revert st0 st1 H0 H. apply foldM_invariant.
  intros st2 d st3. apply sub_iterate_length.
Qed.

Lemma period_iteration_length (complete : Z) (periods : list num)
  (trialPeriod : num) (st : fits) (nbins : Z) (mindur maxdur : num)
  (w1 w2 err : list num) (n : nat) (st' : fits) (complete' : Z) :
  fits_length n st ->
  period_iteration sqrtQ complete periods trialPeriod st nbins mindur maxdur
                   w1 w2 err = Ok (st', complete') ->
  fits_length (S n) st'.
Proof.
  destruct st as [[srMax tD] tP]. intros (H1 & H2 & H3) H.
  unfold period_iteration in H.
  apply bind_Ok in H. destruct H as (frac & _ & H).
  apply bind_Ok in H. destruct H as (ini & Hini & H).
  destruct ini as [[[[st1 f] d1] d2] hh].
  apply bind_Ok in H. destruct H as ([sarr omega] & _ & H).
  apply bind_Ok in H. destruct H as (st2 & Hit & H).
  inversion H; subst st2 complete'; clear H.
  eapply iterate_trialp_durations_length; [|exact Hit].
  unfold initialize_iteration in Hini.
  apply bind_Ok in Hini. destruct Hini as (x1 & _ & Hini).
  apply bind_Ok in Hini. destruct Hini as (x2 & _ & Hini).
  apply bind_Ok in Hini. destruct Hini as (x3 & _ & Hini).
  inversion Hini; subst; clear Hini.
  repeat split; rewrite length_app; simpl; lia.
Qed.

Lemma period_loop_length (periods grid : list num) (nbins : Z)
  (mindur maxdur : num) (w1 w2 err : list num) :
  forall (n : nat) (st : fits) (complete : Z) (st' : fits) (complete' : Z),
  fits_length n st ->
  foldM (fun acc trialPeriod =>
           let '(st, complete) := acc in
           period_iteration sqrtQ complete grid trialPeriod st nbins
                            mindur maxdur w1 w2 err)
        periods (st, complete) = Ok (st', complete') ->
  fits_length (n + length periods) st' /\
  complete' = complete + Z.of_nat (length periods).
Proof.
  induction periods as [|p periods IH]; simpl; intros n st c st' c' Hst H.
  - inversion H; subst. rewrite Nat.add_0_r. split; [exact Hst | lia].
  - apply bind_Ok in H. destruct H as ([st1 c1] & H1 & H).
    replace (n + S (length periods))%nat with (S n + length periods)%nat by lia.
    destruct (IH (S n) st1 c1 st' c') as [A B]; [|exact H|].
    + eapply period_iteration_length; eassumption.
    + split; [exact A|]. subst c'.
      unfold period_iteration in H1.
      apply bind_Ok in H1. destruct H1 as (frac & _ & H1).
      apply bind_Ok in H1. destruct H1 as (ini & _ & H1).
      destruct ini as [[[[st0 f] d1] d2] hh].
      apply bind_Ok in H1. destruct H1 as ([sarr omega] & _ & H1).
      apply bind_Ok in H1. destruct H1 as (st2 & _ & H1).
      inversion H1; subst. lia.
Qed.

Lemma np_inplace_length (f : num -> num -> num) (a b c : list num) :
  np_inplace f a b = Ok c -> length c = length a.
Proof.
  unfold np_inplace. destruct (Nat.eqb (length a) (length b)) eqn:E.
  - intros H; inversion H; subst c. apply Nat.eqb_eq in E.
    rewrite length_map, length_combine. lia.
  - destruct b as [|y [|z b]]; try discriminate.
    intros H; inversion H; subst c. apply length_map.
Qed.

Lemma np_binop_same_length (f : num -> num -> num) (a b c : list num) :
  length a = length b -> np_binop f a b = Ok c -> length c = length a.
Proof.
  intros Hab. unfold np_binop. rewrite Hab, Nat.eqb_refl.
  intros H; inversion H; subst c. rewrite length_map, length_combine. lia.
Qed.

(** X12: in a result of the search the normalized curve, the period grid,
    the durations and the mid-transit times have one length, [bestTrial] is
    an index of these arrays, and the best statistic is zero or more,
    possibly infinite, never NaN and never negative. *)
Theorem bls_result_shape (flux_list : list sample)
  (minper maxper mindur maxdur : num) (nsearch nbins : Z) (r : bls_result) :
  bls_search sqrtQ flux_list minper maxper mindur maxdur nsearch nbins = Ok r ->
  length (srmax r) = length (trialPeriods r) /\
  length (transitDuration r) = length (trialPeriods r) /\
  length (BJD0 r) = length (trialPeriods r) /\
  (bestTrial r < length (trialPeriods r))%nat /\
  statistic_value (bestSr r).
Proof.
  intros H.
  destruct (bls_search_stages _ _ _ _ _ _ _ _ _ H)
    as (ts & grid & srMax & tD & tP & _ & _ & Hp & Hc).
  destruct (period_search_curve _ _ _ _ _ _ _ _ _ _ _ _ Hp)
    as (_ & Hlen & Hall).
  assert (Hfits : fits_length (length grid) (srMax, tD, tP)).
  { unfold period_search in Hp.
    apply bind_Ok in Hp. destruct Hp as (g & _ & Hp).
    apply bind_Ok in Hp. destruct Hp as ([st c] & Hloop & Hp).
    inversion Hp; subst g st; clear Hp.
    apply (period_loop_length grid grid nbins mindur maxdur _ _ _ O)
      in Hloop; [apply Hloop|].
    repeat split; reflexivity. }
  destruct Hfits as (_ & HtD & HtP).
  destruct (curve_best _ _ _ _ _ _ _ Hc) as (Hmax & Hidx & Hcurve & Hgrid).
  destruct (first_index_spec _ NaN _ _ Hidx) as (Hi & Heq & _).
  unfold compute_maximum_residual_curve in Hc.
  apply bind_Ok in Hc. destruct Hc as (b & _ & Hc).
  apply bind_Ok in Hc. destruct Hc as (i & _ & Hc).
  apply bind_Ok in Hc. destruct Hc as (td & Htd & Hc).
  apply bind_Ok in Hc. destruct Hc as (ph & Hph & Hc).
  apply bind_Ok in Hc. destruct Hc as (t0 & _ & Hc).
  inversion Hc; subst r; clear Hc. cbn [srmax trialPeriods transitDuration
    BJD0 bestTrial bestSr] in *.
  apply np_inplace_length in Htd.
  apply np_binop_same_length in Hph; [|congruence].
  rewrite !length_map. repeat split; try congruence; try lia.
  assert (Hv : statistic_value (nth i srMax NaN)).
  { rewrite Forall_forall in Hall. apply Hall. apply nth_In. exact Hi. }
  destruct (nth i srMax NaN) as [| | |q], b as [| | |q'];
    try discriminate; try contradiction; try exact I.
  apply feqb_Fin in Heq. simpl in *. lra.
Qed.

Lemma fold_fmax_In_NaN (l : list num) :
  forall x, In NaN (x :: l) -> fold_left fmax l x = NaN.
Proof.
  induction l as [|y l IH]; intros x H.
  - destruct H as [->|[]]. reflexivity.
  - cbn [fold_left]. destruct H as [->|[->|H]].
    + apply fold_fmax_NaN.
    + replace (fmax x NaN) with NaN by (destruct x; reflexivity).
      apply fold_fmax_NaN.
    + apply IH. right. exact H.
Qed.

Lemma first_index_NaN (l : list num) :
  first_index (fun x => feqb x NaN) l = Raise IndexError.
Proof.
  induction l as [|x l IH]; simpl; [reflexivity|].
  replace (feqb x NaN) with false by (destruct x; reflexivity).
  rewrite IH. reflexivity.
Qed.

(** X13: [compute_maximum_residual_curve] raises [ValueError] on an empty
    curve, and [IndexError] on a curve that holds a NaN: the maximum is then
    NaN, which no entry equals. *)
Theorem curve_without_maximum
  (srMax periods phases durations times : list num) (nbins : Z) :
  (srMax = [] ->
   compute_maximum_residual_curve srMax periods phases durations times nbins
   = Raise ValueError) /\
  (In NaN srMax ->
   compute_maximum_residual_curve srMax periods phases durations times nbins
   = Raise IndexError).
Proof.
  split.
  - intros ->. reflexivity.
  - intros H. unfold compute_maximum_residual_curve.
    destruct srMax as [|x l]; [destruct H|].
    cbn [np_max bind]. rewrite (fold_fmax_In_NaN l x H).
    rewrite first_index_NaN. reflexivity.
Qed.

End Shape.


Section Windows.

Variable sqrtQ : Q -> Q.


End Windows.

(** ** The search on valid and on degenerate parameters *)

Section Progress.

Variable sqrtQ : Q -> Q.














End Progress.

Section Returns.

Variable sqrtQ : Q -> Q.




End Returns.

(** ** The further properties on concrete inputs *)

Lemma prepared_times_ascending_witness :
  prepare_time_series (dip_flux_list (Fin (1 # 4)))
  = Ok (dip_series (Fin (1 # 4))) /\
  Forall (fun r => isfinite (time_of r) = true) (dip_flux_list (Fin (1 # 4))) /\
  StronglySorted (fun a b => sort_leb a b = true)
                 (intime (dip_series (Fin (1 # 4)))) /\
  Forall (fun t => exists q, t = Fin q /\ (0 <= q)%Q)
         (work1 (dip_series (Fin (1 # 4)))).
Proof.
  assert (H : prepare_time_series (dip_flux_list (Fin (1 # 4)))
              = Ok (dip_series (Fin (1 # 4)))) by (vm_compute; reflexivity).
  assert (Hfin : Forall (fun r => isfinite (time_of r) = true)
                        (dip_flux_list (Fin (1 # 4))))
    by (repeat constructor).
  split; [exact H|]. split; [exact Hfin|].
  destruct (prepared_times_ascending _ _ H) as [Hs Hw].
  split; [exact Hs|]. apply Hw. exact Hfin.
Defined.

Lemma prepared_flux_centered_witness :
  prepare_time_series (dip_flux_list (Fin (1 # 4)))
  = Ok (dip_series (Fin (1 # 4))) /\
  num_eq (np_sum (work2 (dip_series (Fin (1 # 4))))) fzero.
Proof.
  assert (H : prepare_time_series (dip_flux_list (Fin (1 # 4)))
              = Ok (dip_series (Fin (1 # 4)))) by (vm_compute; reflexivity).
  split; [exact H|]. exact (prepared_flux_centered _ _ H).
Defined.

Lemma compute_weights_normalized_witness :
  exists s omega,
    compute_weights [Fin (-1); Fin 1; Fin (-1); Fin 1]
                    (map Fin [2; 2; 2; 2]%Q) = Ok (s, omega) /\
    num_eq (np_sum omega) fone.
Proof.
  destruct (compute_weights [Fin (-1); Fin 1; Fin (-1); Fin 1]
                            (map Fin [2; 2; 2; 2]%Q))
    as [[s omega]|e] eqn:E; [|vm_compute in E; discriminate E].
  exists s, omega. split; [reflexivity|].
  assert (Hne : [2; 2; 2; 2]%Q <> []) by discriminate.
  assert (Hws : Forall (fun w => ~ (w == 0)%Q) [2; 2; 2; 2]%Q)
    by (repeat constructor; discriminate).
  exact (proj1 (compute_weights_normalized _ _ s omega Hne Hws E)).
Defined.


Lemma scanned_durations_witness :
  1 <= 2 /\ 2 <= 7 /\
  exists durations,
    py_range 2 (7 + 1) 2 = Ok durations /\
    In 4 durations /\ ~ In 5 durations.
Proof.
  split; [lia|]. split; [lia|].
  destruct (scanned_durations 2 7 2 ltac:(lia) ltac:(lia))
    as (durations & Hr & _ & Hall).
  exists durations. split; [exact Hr|]. split.
  - apply Hall. split; [lia | reflexivity].
  - intros H. apply Hall in H. destruct H as [_ H]. discriminate H.
Defined.

Lemma scan_keeps_best_window_witness :
  py_range 2 (3 + 1) 1 = Ok [2; 3] /\
  fzero <> NaN /\
  exists sr dd pp,
    iterate_trialp_durations Qsqrt_down
      [Fin (-1); Fin 1; Fin (-1); Fin 1]
      [Fin (1 # 4); Fin (1 # 4); Fin (1 # 4); Fin (1 # 4)]
      2 2 3 1 ([] ++ [fzero], [] ++ [NaN], [] ++ [NaN])
    = Ok ([] ++ [sr], [] ++ [dd], [] ++ [pp]) /\
    fgtb sr fzero = true /\ dd = of_Z 3.
Proof.
  assert (Hr : py_range 2 (3 + 1) 1 = Ok [2; 3]) by reflexivity.
  assert (Ht : fzero <> NaN) by discriminate.
  split; [exact Hr|]. split; [exact Ht|].
  destruct (iterate_trialp_durations Qsqrt_down
              [Fin (-1); Fin 1; Fin (-1); Fin 1]
              [Fin (1 # 4); Fin (1 # 4); Fin (1 # 4); Fin (1 # 4)]
              2 2 3 1 ([] ++ [fzero], [] ++ [NaN], [] ++ [NaN]))
    as [st'|e] eqn:E; [|vm_compute in E; discriminate E].
  destruct (scan_keeps_best_window Qsqrt_down _ _ _ _ _ _ _ _ _ _ _ _ _ _
              Hr Ht E) as (sr & dd & pp & -> & _ & _).
  exists sr, dd, pp. split; [reflexivity|].
  vm_compute in E. inversion E; subst. split; reflexivity.
Defined.



Lemma bls_result_shape_witness :
  bls_search Qsqrt_down (dip_flux_list (Fin (1 # 4)))
             (Fin 1) (Fin 2) (Fin 1) (Fin 2) 1 2 = Ok dip_result /\
  length (srmax dip_result) = length (trialPeriods dip_result) /\
  (bestTrial dip_result < length (trialPeriods dip_result))%nat /\
  statistic_value (bestSr dip_result).
Proof.
  assert (H : bls_search Qsqrt_down (dip_flux_list (Fin (1 # 4)))
                (Fin 1) (Fin 2) (Fin 1) (Fin 2) 1 2 = Ok dip_result)
    by (vm_compute; reflexivity).
  split; [exact H|].
  destruct (bls_result_shape Qsqrt_down _ _ _ _ _ _ _ _ H)
    as (H1 & _ & _ & H4 & H5).
  split; [exact H1|]. split; [exact H4 | exact H5].
Defined.

Lemma curve_without_maximum_witness :
  In NaN [Fin 1; NaN] /\
  compute_maximum_residual_curve [Fin 1; NaN] [Fin 1; Fin 2] [NaN; NaN]
                                 [NaN; NaN] [Fin 0] 2 = Raise IndexError.
Proof.
  assert (H : In NaN [Fin 1; NaN]) by (right; left; reflexivity).
  split; [exact H|].
  exact (proj2 (curve_without_maximum [Fin 1; NaN] [Fin 1; Fin 2] [NaN; NaN]
                                      [NaN; NaN] [Fin 0] 2) H).
Defined.


